(** * Post lifecycle of the MERN blog API

    A shallow embedding of the post model (server/models/Post.js, the version
    that stores the featured image as a buffer) and of the post routes
    (server/routes/posts.js, the version that serves the image from the
    database), with the properties of the specification stated over it.

    Conventions.
    - A JavaScript string is a Rocq [string]; its characters are the 256
      [ascii] values, read as U+0000 to U+00FF.  [toLowerCase] and white
      space are what ECMAScript makes of these characters, and the class [\w]
      is [A-Za-z0-9_], as in an ECMAScript regular expression without the
      unicode flag.  Characters beyond U+00FF are not modelled.
    - The [posts] collection is a finite map from [_id] to document.  An
      ObjectId is kept as its 24 hexadecimal digits in lower case.  Which
      strings cast to an ObjectId, and to which, is the driver's to say: the
      two are parameters of the model.  The handlers of the image, update,
      delete and comment routes are given with the [_id] already cast; the
      routes as the router runs them, with the cast and with the upload
      middleware, follow them.
    - A [Date] is an integer number of milliseconds, and a [Number] is an
      integer; the rounding of numbers beyond 2^53 is not modelled.
    - A handler is a function from the collection and the request to a
      response and the collection it leaves behind.  [populate] of [author]
      and [category] only decorates a response and is left out; [populate] of
      the comment authors is modelled.  Where a handler answers 500 with the
      message of an exception that a library worded, a fixed text stands for
      the message.
    - What the schema option [timestamps] does is part of the model: every
      write of a document sets its [updatedAt]. *)

From Stdlib Require Import ZArith Ascii String List Lia Bool.
From stdpp Require Import gmap strings list sorting pretty.

Local Open Scope string_scope.
Local Open Scope Z_scope.

(** ** Strings *)

Module Js.

Definition in_range (lo hi : nat) (c : ascii) : bool :=
  (lo <=? nat_of_ascii c)%nat && (nat_of_ascii c <=? hi)%nat.

Definition is_upper (c : ascii) : bool := in_range 65 90 c.
Definition is_lower (c : ascii) : bool := in_range 97 122 c.
Definition is_digit (c : ascii) : bool := in_range 48 57 c.

(** The class [\w]. *)
Definition is_word (c : ascii) : bool :=
  is_upper c || is_lower c || is_digit c || Ascii.eqb c "_".

Definition is_space (c : ascii) : bool := Ascii.eqb c " ".

(** White space, as [trim] and [parseInt] see it, among the characters up to
    U+00FF: TAB, LF, VT, FF, CR, the space and the no-break space. *)
Definition is_whitespace (c : ascii) : bool :=
  in_range 9 13 c || is_space c || (nat_of_ascii c =? 160)%nat.

(** The capital letters of U+00C0 to U+00DE; U+00D7 is the multiplication
    sign. *)
Definition is_upper_latin1 (c : ascii) : bool :=
  in_range 192 222 c && negb (nat_of_ascii c =? 215)%nat.

Definition lower_char (c : ascii) : ascii :=
  if is_upper c || is_upper_latin1 c then ascii_of_nat (nat_of_ascii c + 32) else c.

(** [String.prototype.toLowerCase]. *)
Fixpoint toLowerCase (s : string) : string :=
  match s with
  | EmptyString => EmptyString
  | String c s' => String (lower_char c) (toLowerCase s')
  end.

(** [s.replace(/[cls]+/g, by)]: every maximal non-empty run of characters of
    the class [cls] is replaced by [by].  [in_run] records that the character
    before the current one belonged to a run that has already been replaced. *)
Fixpoint replace_runs_from (cls : ascii -> bool) (by_ : string)
    (in_run : bool) (s : string) : string :=
  match s with
  | EmptyString => EmptyString
  | String c s' =>
      if cls c then
        if in_run then replace_runs_from cls by_ true s'
        else by_ +:+ replace_runs_from cls by_ true s'
      else String c (replace_runs_from cls by_ false s')
  end.

Definition replace_runs (cls : ascii -> bool) (by_ : string) (s : string) : string :=
  replace_runs_from cls by_ false s.

Fixpoint drop_while (cls : ascii -> bool) (s : string) : string :=
  match s with
  | EmptyString => EmptyString
  | String c s' => if cls c then drop_while cls s' else s
  end.

Definition rev_string (s : string) : string :=
  string_of_list_ascii (List.rev (list_ascii_of_string s)).

(** [String.prototype.trim]. *)
Definition trim (s : string) : string :=
  rev_string (drop_while is_whitespace (rev_string (drop_while is_whitespace s))).

(** [s.split(sep)] for a one-character separator; [cur] is the piece being
    read, in reverse. *)
Fixpoint split_from (sep : ascii) (cur : list ascii) (s : string) : list string :=
  match s with
  | EmptyString => [string_of_list_ascii (List.rev cur)]
  | String c s' =>
      if Ascii.eqb c sep then string_of_list_ascii (List.rev cur) :: split_from sep [] s'
      else split_from sep (c :: cur) s'
  end.

Definition split (sep : ascii) (s : string) : list string := split_from sep [] s.

(** Truthiness of a string: only the empty string is falsy. *)
Definition truthy (s : string) : bool :=
  match s with EmptyString => false | _ => true end.

End Js.

(** ** The slug of a title (models/Post.js, [generateSlug]) *)

Definition not_word_or_space (c : ascii) : bool :=
  negb (Js.is_word c || Js.is_space c).

Definition generateSlug (title : string) : string :=
  Js.replace_runs Js.is_space "-"
    (Js.replace_runs not_word_or_space "" (Js.toLowerCase title)).


(** The derivation in the words of the specification: lowercase, keep only
    word characters and spaces, turn each run of spaces into one hyphen.  It is
    compared with [generateSlug] below. *)
Fixpoint keep_only (cls : ascii -> bool) (s : string) : string :=
  match s with
  | EmptyString => EmptyString
  | String c s' => if cls c then String c (keep_only cls s') else keep_only cls s'
  end.

Fixpoint collapse_spaces (s : string) : string :=
  match s with
  | EmptyString => EmptyString
  | String c s' =>
      if Js.is_space c then
        match s' with
        | EmptyString => "-"
        | String c' _ =>
            if Js.is_space c' then collapse_spaces s'
            else String "-" (collapse_spaces s')
        end
      else String c (collapse_spaces s')
  end.

Definition word_or_space (c : ascii) : bool := Js.is_word c || Js.is_space c.

Definition deriveSlug (title : string) : string :=
  collapse_spaces (keep_only word_or_space (Js.toLowerCase title)).

(** The characters a slug is made of: [a-z0-9_] and the hyphen. *)
Definition is_slug_char (c : ascii) : bool :=
  Js.is_lower c || Js.is_digit c || Ascii.eqb c "_" || Ascii.eqb c "-".

Fixpoint string_forallb (cls : ascii -> bool) (s : string) : bool :=
  match s with
  | EmptyString => true
  | String c s' => cls c && string_forallb cls s'
  end.

(** ** Data model (models/Post.js, the schema) *)

Abbreviation ObjectId := string (only parsing).
Abbreviation Date := Z (only parsing).
Abbreviation Buffer := (list Byte.byte) (only parsing).

(** [featuredImage: { data: Buffer, contentType: String, filename: String }].
    [data] is optional because a projection can leave it out. *)
Record Attachment := mkAttachment {
  data : option Buffer;
  contentType : string;
  filename : string
}.

Record Comment := mkComment {
  comment_user : ObjectId;
  comment_content : string;
  comment_createdAt : Date
}.

Record Post := mkPost {
  _id : ObjectId;
  title : string;
  content : string;
  featuredImage : option Attachment;
  slug : string;
  excerpt : option string;
  author : ObjectId;
  category : ObjectId;
  tags : list string;
  isPublished : bool;
  viewCount : Z;
  comments : list Comment;
  createdAt : Date;
  updatedAt : Date
}.

(** The users collection belongs to the authentication collaborator; the post
    routes only read [username] from it when they populate a reference. *)
Record User := mkUser { username : string }.

(** [req.user], as the authentication middleware leaves it; [user_id] is the
    ObjectId of the user, as text. *)
Record Principal := mkPrincipal { user_id : ObjectId; user_role : string }.

(** ** Requests and responses *)

(** A JSON or form value, as far as the routes look at it. *)
Inductive JsValue :=
  | JUndefined
  | JNull
  | JBool (b : bool)
  | JNumber (n : Z)
  | JString (s : string).

(** A file of the request, as multer's memory storage reads it. *)
Record File := mkFile {
  buffer : Buffer;
  mimetype : string;
  originalname : string
}.

(** [req.body]; a field that is absent is [None] ([undefined]). *)
Record Body := mkBody {
  body_title : option string;
  body_content : option string;
  body_excerpt : option string;
  body_category : option string;
  body_tags : option string;
  body_isPublished : JsValue;
  body_removeFeaturedImage : option string
}.

(** [req.query]. *)
Record Query := mkQuery {
  query_page : option string;
  query_limit : option string;
  query_category : option string;
  query_q : option string
}.

Inductive Method := GET | POST | PUT | DELETE.

Record Request := mkRequest {
  method : Method;
  path : list string;   (* the segments of the path below /api/posts *)
  query : Query;
  body : Body;
  file : option File;
  user : option Principal
}.

(** [{ ...post.toObject(), hasFeaturedImage }]. *)
Record PostJson := mkPostJson {
  doc : Post;
  hasFeaturedImage : bool
}.

(** A comment whose [user] has been populated with [username]. *)
Record CommentJson := mkCommentJson {
  cj_user : option (ObjectId * string);
  cj_content : string;
  cj_createdAt : Date
}.

Record Pagination := mkPagination {
  pg_page : Z;
  pg_limit : Z;
  pg_total : Z;
  pg_pages : Z
}.

Inductive ResBody :=
  | BError (error : string)
  | BErrors (errors : list string)
  | BPost (data : PostJson)
  | BPosts (data : list PostJson) (pagination : option Pagination)
  | BComments (data : list CommentJson)
  | BMessage (message : string).

Inductive Response :=
  | Json (status : nat) (b : ResBody)
  | Send (content_type : string) (bytes : Buffer).

Definition status_of (r : Response) : nat :=
  match r with Json st _ => st | Send _ _ => 200%nat end.

(** ** The storage layer, as the routes use it *)

(** The collection: documents by [_id]. *)
Abbreviation Posts := (gmap string Post) (only parsing).
Abbreviation Users := (gmap string User) (only parsing).

(** The documents of the collection, in the order in which a scan meets them. *)
Definition documents (db : Posts) : list Post := (map_to_list db).*2.

(** [Post.findById(id)] for an [id] that is an ObjectId.  On a string,
    Mongoose casts first and throws a CastError when the string is not an
    ObjectId; the cast is [castObjectId] below, and the routes apply it to
    their parameter. *)
Definition findById (db : Posts) (i : ObjectId) : option Post := db !! i.

(** [Post.findOne({ slug })]. *)
Definition findOne_slug (db : Posts) (s : string) : option Post :=
  List.find (fun p => String.eqb (slug p) s) (documents db).

(** Inserting a document.  The collection has a unique index on [_id] and,
    by [unique: true] in the schema, one on [slug]; a second document with a
    key that is taken is refused with error code 11000 ([None]). *)
Definition insertOne (db : Posts) (p : Post) : option Posts :=
  match db !! _id p, findOne_slug db (slug p) with
  | None, None => Some (<[_id p := p]> db)
  | _, _ => None
  end.

(** [Post.findByIdAndUpdate(id, update)]: one atomic update of one document. *)
Definition findByIdAndUpdate (db : Posts) (i : ObjectId) (f : Post -> Post) : Posts :=
  alter f i db.

(** [Post.findByIdAndDelete(id)]. *)
Definition findByIdAndDelete (db : Posts) (i : ObjectId) : Posts := delete i db.

(** [.select('-featuredImage.data')]. *)
Definition exclude_image_data (p : Post) : Post :=
  mkPost (_id p) (title p) (content p)
    (match featuredImage p with
     | Some a => Some (mkAttachment None (contentType a) (filename a))
     | None => None
     end)
    (slug p) (excerpt p) (author p) (category p) (tags p) (isPublished p)
    (viewCount p) (comments p) (createdAt p) (updatedAt p).

(** [.sort({ createdAt: -1 })]. *)
Definition newer_first (p q : Post) : Prop := createdAt q <= createdAt p.

#[global] Instance newer_first_dec p q : Decision (newer_first p q).
Proof. unfold newer_first. apply _. Defined.

Definition sort_createdAt_desc (l : list Post) : list Post := merge_sort newer_first l.

(** [.skip(n)]: the server refuses a negative skip ([None]). *)
Definition skip (n : Z) (l : list Post) : option (list Post) :=
  if n <? 0 then None else Some (drop (Z.to_nat n) l).

(** [.limit(n)]: at most [|n|] documents, and no bound for [0]. *)
Definition limit (n : Z) (l : list Post) : list Post :=
  if n =? 0 then l else take (Z.to_nat (Z.abs n)) l.

(** [.populate('comments.user', 'username')]. *)
Definition populate_comment (users : Users) (c : Comment) : CommentJson :=
  mkCommentJson
    (match users !! comment_user c with
     | Some u => Some (comment_user c, username u)
     | None => None
     end)
    (comment_content c) (comment_createdAt c).

(** ** Model statics, methods and hooks (models/Post.js) *)

(** The while loop of [generateUniqueSlug].  Each round probes the collection
    once; [fuel] bounds the number of rounds. *)
Fixpoint probe_slug (fuel : nat) (db : Posts) (originalSlug slug_ : string)
    (counter : nat) : option string :=
  match fuel with
  | O => None
  | S fuel' =>
      match findOne_slug db slug_ with
      | Some _ =>
          probe_slug fuel' db originalSlug
            (originalSlug +:+ "-" +:+ pretty counter) (S counter)
      | None => Some slug_
      end
  end.

(** [Post.generateUniqueSlug(title)].  One round more than there are documents
    is enough (see [generateUniqueSlug_total]). *)
Definition generateUniqueSlug (db : Posts) (title_ : string) : option string :=
  let originalSlug := generateSlug title_ in
  probe_slug (S (size db)) db originalSlug originalSlug 1.

Definition set_slug (s : string) (p : Post) : Post :=
  mkPost (_id p) (title p) (content p) (featuredImage p) s (excerpt p)
    (author p) (category p) (tags p) (isPublished p) (viewCount p)
    (comments p) (createdAt p) (updatedAt p).

(** [PostSchema.pre('save', ...)].  [isModified_title] is what
    [this.isModified('title')] answers: true on a document built by
    [new Post({ title, ... })], on which every path given to the constructor
    counts as modified, and false on a document that was read and whose title
    was not assigned since. *)
Definition pre_save (isModified_title : bool) (p : Post) : Post :=
  if negb (Js.truthy (slug p)) || isModified_title
  then set_slug (generateSlug (title p)) p
  else p.

(** [this.comments.push({ user: userId, content })]; [createdAt] takes its
    default, [Date.now]. *)
Definition push_comment (userId : ObjectId) (text : string) (now : Date) (p : Post) : Post :=
  mkPost (_id p) (title p) (content p) (featuredImage p) (slug p) (excerpt p)
    (author p) (category p) (tags p) (isPublished p) (viewCount p)
    (comments p ++ [mkComment userId text now]) (createdAt p) (updatedAt p).

Definition set_updatedAt (now : Date) (p : Post) : Post :=
  mkPost (_id p) (title p) (content p) (featuredImage p) (slug p) (excerpt p)
    (author p) (category p) (tags p) (isPublished p) (viewCount p)
    (comments p) (createdAt p) now.

(** [{ $inc: { viewCount: 1 } }]. *)
Definition inc_viewCount (p : Post) : Post :=
  mkPost (_id p) (title p) (content p) (featuredImage p) (slug p) (excerpt p)
    (author p) (category p) (tags p) (isPublished p) (viewCount p + 1)
    (comments p) (createdAt p) (updatedAt p).

(** [this.viewCount = v], the write that [incrementViewCount] saves. *)
Definition set_viewCount (v : Z) (p : Post) : Post :=
  mkPost (_id p) (title p) (content p) (featuredImage p) (slug p) (excerpt p)
    (author p) (category p) (tags p) (isPublished p) v
    (comments p) (createdAt p) (updatedAt p).

(** ** Helpers of the routes (routes/posts.js) *)

(** The value of one digit in the given radix. *)
Definition digit_value (radix : Z) (c : ascii) : option Z :=
  let n := Z.of_nat (nat_of_ascii c) in
  let v :=
    if Js.is_digit c then Some (n - 48)
    else if Js.is_lower c then Some (n - 87)
    else if Js.is_upper c then Some (n - 55)
    else None in
  match v with
  | Some d => if d <? radix then Some d else None
  | None => None
  end.

(** The longest prefix of digits, read as a number; [acc] is [None] as long as
    no digit was read. *)
Fixpoint read_digits (radix : Z) (acc : option Z) (s : string) : option Z :=
  match s with
  | EmptyString => acc
  | String c s' =>
      match digit_value radix c with
      | Some d => read_digits radix (Some (default 0 acc * radix + d)) s'
      | None => acc
      end
  end.

(** [parseInt(v)] on a query parameter: leading white space, a sign, a
    [0x] prefix, then digits; [None] is [NaN].  An absent parameter is
    [undefined], which reads as the text "undefined" and gives [NaN]. *)
Definition parseInt (v : option string) : option Z :=
  match v with
  | None => None
  | Some s =>
      let s1 := Js.drop_while Js.is_whitespace s in
      let '(negative, s2) :=
        match s1 with
        | String "-"%char r => (true, r)
        | String "+"%char r => (false, r)
        | _ => (false, s1)
        end in
      let '(radix, s3) :=
        match s2 with
        | String "0"%char (String x r) =>
            if Ascii.eqb x "x" || Ascii.eqb x "X" then (16, r) else (10, s2)
        | _ => (10, s2)
        end in
      match read_digits radix None s3 with
      | Some n => Some (if negative then - n else n)
      | None => None
      end
  end.

(** [parseInt(v) || d]: [NaN] and [0] are falsy. *)
Definition or_default (v : option Z) (d : Z) : Z :=
  match v with
  | None => d
  | Some n => if n =? 0 then d else n
  end.

(** Lines 24 to 27 of the list route: [page], [limit] and [skip]. *)
Definition list_params (q : Query) : Z * Z * Z :=
  let page := or_default (parseInt (query_page q)) 1 in
  let limit := or_default (parseInt (query_limit q)) 10 in
  (page, limit, (page - 1) * limit).

(** [Math.ceil(total / limit)], for a [limit] that is not zero. *)
Definition ceil_div (total limit : Z) : Z := - ((- total) / limit).

(** [tags ? tags.split(',').map(tag => tag.trim()).filter(tag => tag) : []]. *)
Definition parse_tags (tags : option string) : list string :=
  match tags with
  | Some t =>
      if Js.truthy t
      then List.filter Js.truthy (List.map Js.trim (Js.split "," t))
      else []
  | None => []
  end.

(** [isPublished === 'true' || isPublished === true]. *)
Definition coerce_isPublished (v : JsValue) : bool :=
  match v with
  | JString s => String.eqb s "true"
  | JBool b => b
  | _ => false
  end.

(** The attachment built from [req.file]. *)
Definition attachment_of (f : File) : Attachment :=
  mkAttachment (Some (buffer f)) (mimetype f) (originalname f).

(** [{ ...post.toObject(), hasFeaturedImage: !!post.featuredImage }] on a
    document read with [.select('-featuredImage.data')].  [featuredImage] is a
    nested path of the schema, not a subdocument: on a Mongoose document the
    getter of a nested path gives an object whether or not anything is stored
    there, so the flag is [true] on every document. *)
Definition to_json (p : Post) : PostJson :=
  mkPostJson (exclude_image_data p) true.

(** The body of the 201 answer of the create route:
    [responsePost = post.toObject(); delete responsePost.featuredImage] and
    [hasFeaturedImage: !!post.featuredImage]. *)
Definition created_json (p : Post) : PostJson :=
  mkPostJson
    (mkPost (_id p) (title p) (content p) None (slug p) (excerpt p) (author p)
       (category p) (tags p) (isPublished p) (viewCount p) (comments p)
       (createdAt p) (updatedAt p))
    true.

(** The authorization check of the update and delete routes:
    [post.author.toString() !== req.user.id && req.user.role !== 'admin']. *)
Definition not_authorized (p : Post) (u : Principal) : bool :=
  negb (String.eqb (author p) (user_id u)) && negb (String.eqb (user_role u) "admin").

(** ** The routes (routes/posts.js) *)

Definition not_found : Response := Json 404 (BError "Post not found").
Definition server_error (msg : string) : Response := Json 500 (BError msg).

Section Routes.

(** [mongoose.Types.ObjectId.isValid], which belongs to the driver.  It is
    also the test of the cast: Mongoose casts a string to an ObjectId when the
    driver accepts the string, and throws a CastError when it does not. *)
Variable ObjectId_isValid : string -> bool.

(** The ObjectId that a string is cast to, as the 24 hexadecimal digits in
    lower case under which the collection keeps an ObjectId.  It is asked for
    only where [ObjectId_isValid] holds. *)
Variable ObjectId_hex : string -> ObjectId.

(** The cast of a string to an ObjectId; [None] is the CastError. *)
Definition castObjectId (s : string) : option ObjectId :=
  if ObjectId_isValid s then Some (ObjectId_hex s) else None.

(** The query of the list route: [{ isPublished: true }], and
    [query.category = category] when a category is given.  Mongoose casts the
    category to an ObjectId when it runs the query. *)
Definition list_filter (q : Query) (p : Post) : bool :=
  isPublished p
  && match query_category q with
     | Some c => if Js.truthy c then String.eqb (category p) (ObjectId_hex c) else true
     | None => true
     end.

(** The cast of the category fails, and the query throws. *)
Definition list_cast_fails (q : Query) : bool :=
  match query_category q with
  | Some c => Js.truthy c && negb (ObjectId_isValid c)
  | None => false
  end.

(** The schema validators that run when a new document is saved: [title] is
    required and at most 100 characters long, [content] and [slug] are
    required, [excerpt] is at most 200 characters long, [category] is
    required and must cast to an ObjectId.  A required string must not be
    empty. *)
Definition validate_new (title_ : string) (content_ : option string)
    (slug_ : string) (excerpt_ : option string) (category_ : option string) : bool :=
  Js.truthy title_ && (String.length title_ <=? 100)%nat
  && match content_ with Some c => Js.truthy c | None => false end
  && Js.truthy slug_
  && match excerpt_ with Some e => (String.length e <=? 200)%nat | None => true end
  && match category_ with Some c => Js.truthy c && ObjectId_isValid c | None => false end.

(** What [findByIdAndUpdate(id, updateData, { runValidators: true })] checks
    before it writes: the cast of [category] to an ObjectId, and the
    validators of the paths that the update sets; a path whose value is
    [undefined] is not part of the update. *)
Definition validate_update (b : Body) : bool :=
  match body_title b with
  | Some t => Js.truthy (Js.trim t) && (String.length (Js.trim t) <=? 100)%nat
  | None => true
  end
  && match body_content b with Some c => Js.truthy c | None => true end
  && match body_excerpt b with Some e => (String.length e <=? 200)%nat | None => true end
  && match body_category b with Some c => Js.truthy c && ObjectId_isValid c | None => true end.

(** What [findByIdAndUpdate(id, updateData)] of the update route writes into
    the document: the paths of [updateData], [category] as the ObjectId it is
    cast to, and [updatedAt], which the [timestamps] option of the schema
    maintains. *)
Definition apply_update (b : Body) (f : option File) (now : Date) (p : Post) : Post :=
  mkPost (_id p)
    (match body_title b with Some t => Js.trim t | None => title p end)
    (match body_content b with Some c => c | None => content p end)
    (match f with
     | Some fl => Some (attachment_of fl)
     | None =>
         match body_removeFeaturedImage b with
         | Some r => if String.eqb r "true" then None else featuredImage p
         | None => featuredImage p
         end
     end)
    (slug p)
    (match body_excerpt b with Some e => Some e | None => excerpt p end)
    (author p)
    (match body_category b with Some c => ObjectId_hex c | None => category p end)
    (parse_tags (body_tags b))
    (coerce_isPublished (body_isPublished b))
    (viewCount p) (comments p) (createdAt p) now.

(** The regular expression engine: a pattern that compiles gives the test
    "some part of the subject matches, letter case ignored"; a pattern that
    does not compile gives [None], and the caller sees an exception. *)
Variable RegExp_i : string -> option (string -> bool).

(** [GET /]: the published posts, newest first, one page of them.  The query
    throws when the category does not cast or the skip is negative, and the
    route answers 500 with the message of the exception, for which a fixed
    text stands here as in the other routes. *)
Definition listPosts (db : Posts) (req : Request) : Response * Posts :=
  let '(page, lim, skp) := list_params (query req) in
  if list_cast_fails (query req)
  then (server_error "Cast to ObjectId failed", db)
  else
    let found := List.filter (list_filter (query req)) (documents db) in
    match skip skp (sort_createdAt_desc found) with
    | None => (server_error "Skip value must be non-negative", db)
    | Some rest =>
        let posts := limit lim rest in
        let total := Z.of_nat (length found) in
        (Json 200 (BPosts (List.map to_json posts)
                     (Some (mkPagination page lim total (ceil_div total lim)))), db)
    end.

(** [GET /:id]: one post, by [_id] or by slug; a post that is found has its
    view count incremented by one atomic update, which also stamps
    [updatedAt] because of the [timestamps] option of the schema.  The route
    asks the driver itself whether the identifier is an ObjectId, so no cast
    can fail here; an identifier that is one is looked up in the form in
    which the collection keeps an ObjectId. *)
Definition lookup_identifier (db : Posts) (identifier : string) : option Post :=
  if ObjectId_isValid identifier
  then findById db identifier
  else findOne_slug db identifier.

Definition inc_update (now : Date) (p : Post) : Post :=
  set_updatedAt now (inc_viewCount p).

Definition getPost (db : Posts) (now : Date) (identifier : string) : Response * Posts :=
  match lookup_identifier db identifier with
  | None => (not_found, db)
  | Some post =>
      (Json 200 (BPost (to_json post)),
       findByIdAndUpdate db (_id post) (inc_update now))
  end.

(** [GET /:id/image], for the ObjectId [i] that the parameter casts to. *)
Definition getImage (db : Posts) (i : ObjectId) : Response * Posts :=
  match findById db i with
  | Some post =>
      match featuredImage post with
      | Some a =>
          match data a with
          | Some bytes => (Send (contentType a) bytes, db)
          | None => (Json 404 (BError "Image not found"), db)
          end
      | None => (Json 404 (BError "Image not found"), db)
      end
  | None => (Json 404 (BError "Image not found"), db)
  end.

(** The document that [new Post(postData)] builds in the create route.  The
    schema trims [title] and casts [category] to an ObjectId; [viewCount] and
    [comments] take their defaults; [_id] comes from the driver and the
    timestamps from the clock. *)
Definition new_post (newId : ObjectId) (now : Date) (b : Body) (f : option File)
    (u : Principal) (title_ slug_ : string) : Post :=
  mkPost newId (Js.trim title_) (default "" (body_content b))
    (attachment_of <$> f) slug_ (body_excerpt b) (user_id u)
    (default "" (ObjectId_hex <$> body_category b)) (parse_tags (body_tags b))
    (coerce_isPublished (body_isPublished b)) 0 [] now now.

(** [POST /].  No validation chain is attached to this route, so
    [validationResult(req)] is empty; the schema validators run in [save].
    [None] only if [generateUniqueSlug] ran out of rounds. *)
Definition createPost (db : Posts) (newId : ObjectId) (now : Date)
    (req : Request) (u : Principal) : option (Response * Posts) :=
  let b := body req in
  match body_title b with
  | None =>
      (* [title.toLowerCase()] on [undefined] *)
      Some (server_error "Cannot read properties of undefined", db)
  | Some title_ =>
      slug_ ← generateUniqueSlug db title_;
      let post := new_post newId now b (file req) u title_ slug_ in
      if negb (validate_new (title post) (body_content b) (slug post)
                 (body_excerpt b) (body_category b))
      then Some (server_error "Post validation failed", db)
      else
        let post := pre_save true post in
        match insertOne db post with
        | None => Some (Json 400 (BError "Post with this title already exists"), db)
        | Some db' => Some (Json 201 (BPost (created_json post)), db')
        end
  end.

(** [PUT /:id], for the ObjectId [i] that the parameter casts to and the file
    that the upload middleware let through.  [findByIdAndUpdate] throws when
    [category] does not cast or a validator fails, and the route answers
    500. *)
Definition updatePost (db : Posts) (i : ObjectId) (now : Date)
    (req : Request) (u : Principal) : Response * Posts :=
  match findById db i with
  | None => (not_found, db)
  | Some post =>
      if not_authorized post u
      then (Json 403 (BError "Not authorized to update this post"), db)
      else if negb (validate_update (body req))
      then (server_error "Validation failed", db)
      else
        let db' := findByIdAndUpdate db i (apply_update (body req) (file req) now) in
        match findById db' i with
        | Some post' => (Json 200 (BPost (to_json post')), db')
        | None => (server_error "Cannot read properties of null", db')
        end
  end.

(** [DELETE /:id], for the ObjectId [i] that the parameter casts to. *)
Definition deletePost (db : Posts) (i : ObjectId) (u : Principal) : Response * Posts :=
  match findById db i with
  | None => (not_found, db)
  | Some post =>
      if not_authorized post u
      then (Json 403 (BError "Not authorized to delete this post"), db)
      else (Json 200 (BMessage "Post deleted successfully"), findByIdAndDelete db i)
  end.

(** The write of [doc.save()] on a document that was read from the
    collection: the changed paths are written, and the write is refused with
    error code 11000 ([None]) when it changes the slug to one that another
    document has. *)
Definition save (db : Posts) (old new : Post) : option Posts :=
  if String.eqb (slug new) (slug old) then Some (<[_id old := new]> db)
  else
    match findOne_slug db (slug new) with
    | Some _ => None
    | None => Some (<[_id old := new]> db)
    end.

(** The validators that [save] runs on a document that was read and changed
    in memory.  Of the validators of the schema, the one that requires [slug]
    is the one that can fail on a document that the routes stored: the other
    paths were validated when the routes wrote them, but the create route
    validates before the pre-save hook sets the slug, and the hook can leave
    it empty. *)
Definition validate_stored (p : Post) : bool := Js.truthy (slug p).

(** [doc.save()] on a document [old] that was read and has become [changed]
    in memory: the validators run, then the pre-save hook, on a document
    whose title was not touched, then the write, which stamps [updatedAt].
    [None] when [save] rejects, with a validation error or with a duplicate
    key. *)
Definition save_document (db : Posts) (old changed : Post) (now : Date)
    : option (Post * Posts) :=
  if negb (validate_stored changed) then None
  else
    let new := set_updatedAt now (pre_save false changed) in
    db' ← save db old new;
    Some (new, db').

(** [post.addComment(userId, content)]: push, then [save]. *)
Definition addComment (db : Posts) (post : Post) (userId : ObjectId)
    (text : string) (now : Date) : option (Post * Posts) :=
  save_document db post (push_comment userId text now post) now.

(** [POST /:id/comments], for the ObjectId [i] that the parameter casts to.
    The validation chain [body('content').notEmpty()] is checked before the
    post is looked up. *)
Definition addCommentRoute (db : Posts) (users : Users) (i : ObjectId) (now : Date)
    (req : Request) (u : Principal) : Response * Posts :=
  match body_content (body req) with
  | None => (Json 400 (BErrors ["Comment content is required"]), db)
  | Some text =>
      if negb (Js.truthy text)
      then (Json 400 (BErrors ["Comment content is required"]), db)
      else
        match findById db i with
        | None => (not_found, db)
        | Some post =>
            match addComment db post (user_id u) text now with
            | Some (post', db') =>
                (Json 201 (BComments (List.map (populate_comment users) (comments post'))),
                 db')
            | None => (server_error "Post validation failed", db)
            end
        end
  end.

(** The test of the search query against one post. *)
Definition search_match (test : string -> bool) (p : Post) : bool :=
  isPublished p && (test (title p) || test (content p) || existsb test (tags p)).

(** [GET /search], the handler registered last. *)
Definition searchPosts (db : Posts) (req : Request) : Response * Posts :=
  match query_q (query req) with
  | None => (Json 400 (BError "Search query is required"), db)
  | Some q =>
      if negb (Js.truthy q)
      then (Json 400 (BError "Search query is required"), db)
      else
        match RegExp_i q with
        | None => (server_error "Invalid regular expression", db)
        | Some test =>
            let posts :=
              limit 20 (sort_createdAt_desc
                          (List.filter (search_match test) (documents db))) in
            (Json 200 (BPosts (List.map to_json posts) None), db)
        end
  end.

(** *** The upload middleware (middleware/upload.js) and the error handler
    (server.js) *)

(** [s.startsWith(p)]. *)
Fixpoint starts_with (p s : string) : bool :=
  match p, s with
  | EmptyString, _ => true
  | String a p', String b s' => Ascii.eqb a b && starts_with p' s'
  | String _ _, EmptyString => false
  end.

(** [s.includes(p)], which is also the test of a regular expression that is
    an alternative of plain words, one word at a time. *)
Fixpoint includes (p s : string) : bool :=
  starts_with p s
  || match s with
     | EmptyString => false
     | String _ s' => includes p s'
     end.

(** [path.extname], which belongs to the platform. *)
Variable path_extname : string -> string.

(** [/jpeg|jpg|png|gif|webp/.test(s)]: some part of [s] is one of the names. *)
Definition allowedTypes_test (s : string) : bool :=
  existsb (fun name => includes name s) ["jpeg"; "jpg"; "png"; "gif"; "webp"].

Definition fileFilter_message : string :=
  "Only image files (JPEG, JPG, PNG, GIF, WEBP) are allowed!".

(** [fileFilter]: whether the callback is called with [true]. *)
Definition fileFilter (originalname_ mimetype_ : string) : bool :=
  let extname := allowedTypes_test (Js.toLowerCase (path_extname originalname_)) in
  let mimetype_ok := allowedTypes_test mimetype_ in
  mimetype_ok && extname.

(** An exception, as far as the error handler looks at it. *)
Record JsError := mkJsError {
  err_code : option string;
  err_message : string;
  err_statusCode : option nat
}.

(** [limits.fileSize]. *)
Definition fileSize_limit : Z := 5 * 1024 * 1024.

(** Whether the upload library finds the content too large for the limit it
    was given; the comparison belongs to the library. *)
Variable exceeds_fileSize : Z -> Buffer -> bool.

(** [upload.single('featuredImage')] on a request that brings a file: the
    filter decides first; a file that the library finds too large is refused
    with the code [LIMIT_FILE_SIZE]; otherwise the file becomes [req.file]. *)
Definition upload_single (f : File) : File + JsError :=
  if negb (fileFilter (originalname f) (mimetype f))
  then inr (mkJsError None fileFilter_message None)
  else if exceeds_fileSize fileSize_limit (buffer f)
  then inr (mkJsError (Some "LIMIT_FILE_SIZE") "File too large" None)
  else inl f.

(** The error handling middleware of server.js. *)
Definition errorHandler (e : JsError) : Response :=
  if match err_code e with Some c => String.eqb c "LIMIT_FILE_SIZE" | None => false end
  then Json 400 (BError "File too large. Maximum size is 5MB.")
  else if Js.truthy (err_message e) && includes "Only image files" (err_message e)
  then Json 400 (BError (err_message e))
  else
    Json (match err_statusCode e with
          | Some st => if (st =? 0)%nat then 500%nat else st
          | None => 500%nat
          end)
      (BError (if Js.truthy (err_message e) then err_message e
               else "Internal Server Error")).

(** *** The routes with their middleware

    The handlers above take the [_id] of the post as the ObjectId that the
    route parameter is cast to.  The routes below are the handlers as the
    router runs them: behind the upload middleware where the route has it,
    and on the parameter as the request gives it, which [Post.findById] casts
    before it asks the collection.  A parameter that does not cast makes
    [findById] throw, and the [catch] of the handler answers 500. *)

(** [upload.single('featuredImage')] before a handler.  [file req] is the file
    that the request brings in the field [featuredImage], if it brings one; a
    file that the middleware refuses ends the request in the error handler of
    server.js, and a file that it accepts is what the handler finds in
    [req.file]. *)
Definition with_upload (db : Posts) (req : Request)
    (k : option (Response * Posts)) : option (Response * Posts) :=
  match file req with
  | Some f =>
      match upload_single f with
      | inl _ => k
      | inr e => Some (errorHandler e, db)
      end
  | None => k
  end.

(** [POST /] behind the upload middleware. *)
Definition createRoute (db : Posts) (newId : ObjectId) (now : Date)
    (req : Request) (u : Principal) : option (Response * Posts) :=
  with_upload db req (createPost db newId now req u).

(** [GET /:id/image] on the parameter of the request. *)
Definition imageRoute (db : Posts) (param : string) : Response * Posts :=
  match castObjectId param with
  | Some i => getImage db i
  | None => (server_error "Error fetching image", db)
  end.

(** [PUT /:id] behind the upload middleware, on the parameter of the
    request. *)
Definition updateRoute (db : Posts) (param : string) (now : Date)
    (req : Request) (u : Principal) : option (Response * Posts) :=
  with_upload db req
    (Some match castObjectId param with
          | Some i => updatePost db i now req u
          | None => (server_error "Cast to ObjectId failed", db)
          end).

(** [DELETE /:id] on the parameter of the request. *)
Definition deleteRoute (db : Posts) (param : string) (u : Principal) : Response * Posts :=
  match castObjectId param with
  | Some i => deletePost db i u
  | None => (server_error "Cast to ObjectId failed", db)
  end.

(** [POST /:id/comments] on the parameter of the request.  The content is
    checked before [Post.findById] casts the parameter. *)
Definition commentRoute (db : Posts) (users : Users) (param : string) (now : Date)
    (req : Request) (u : Principal) : Response * Posts :=
  match body_content (body req) with
  | None => (Json 400 (BErrors ["Comment content is required"]), db)
  | Some text =>
      if negb (Js.truthy text)
      then (Json 400 (BErrors ["Comment content is required"]), db)
      else
        match castObjectId param with
        | Some i => addCommentRoute db users i now req u
        | None => (server_error "Cast to ObjectId failed", db)
        end
  end.

(** *** The router *)

(** What a request brings besides itself: the users collection that references
    are populated from, the [_id] the driver would give to a new document, and
    the time. *)
Record Env := mkEnv { env_users : Users; env_newId : ObjectId; env_now : Date }.

(** A handler gets the route parameters in the order of the pattern. *)
Definition Handler : Type :=
  Posts -> Env -> Request -> list string -> option (Response * Posts).

(** Modelled from the spec: the middleware [middleware/auth] is not among the
    sources.  Per the interface table a route marked "required" is served only
    to an authenticated principal; [user req] is the principal that the
    middleware established, and without one the request ends with 401. *)
Definition auth (k : Principal -> Handler) : Handler :=
  fun db env req params =>
    match user req with
    | Some u => k u db env req params
    | None => Some (Json 401 (BError "No token, authorization denied"), db)
    end.

(** [req.params.id]. *)
Definition param_id (params : list string) : string := hd "" params.

Inductive Seg := Lit (s : string) | Param.

(** A pattern matches a path segment by segment; [:id] matches any one
    segment.  The result is the values of the parameters. *)
Fixpoint match_path (pat : list Seg) (p : list string) : option (list string) :=
  match pat, p with
  | [], [] => Some []
  | Lit s :: pat', x :: p' => if String.eqb s x then match_path pat' p' else None
  | Param :: pat', x :: p' => cons x <$> match_path pat' p'
  | _, _ => None
  end.

Definition Method_eqb (a b : Method) : bool :=
  match a, b with
  | GET, GET | POST, POST | PUT, PUT | DELETE, DELETE => true
  | _, _ => false
  end.

(** The routes, in the order in which the file registers them. *)
Definition routes : list (Method * list Seg * Handler) :=
  [ (GET, [], auth (fun _ db _ req _ => Some (listPosts db req)));
    (GET, [Param], fun db env _ ps => Some (getPost db (env_now env) (param_id ps)));
    (GET, [Param; Lit "image"], fun db _ _ ps => Some (imageRoute db (param_id ps)));
    (POST, [], auth (fun u db env req _ => createRoute db (env_newId env) (env_now env) req u));
    (PUT, [Param], auth (fun u db env req ps =>
                           updateRoute db (param_id ps) (env_now env) req u));
    (DELETE, [Param], auth (fun u db _ _ ps => Some (deleteRoute db (param_id ps) u)));
    (POST, [Param; Lit "comments"],
      auth (fun u db env req ps =>
              Some (commentRoute db (env_users env) (param_id ps) (env_now env) req u)));
    (GET, [Lit "search"], fun db _ req _ => Some (searchPosts db req)) ].

(** The router runs the first route whose method and pattern match; every
    handler above ends the request, none passes it on.  A request that no
    route matches reaches the 404 handler of server.js. *)
Fixpoint dispatch_in (rs : list (Method * list Seg * Handler))
    (db : Posts) (env : Env) (req : Request) : option (Response * Posts) :=
  match rs with
  | [] => Some (Json 404 (BError "Route not found"), db)
  | (m, pat, h) :: rs' =>
      if Method_eqb m (method req) then
        match match_path pat (path req) with
        | Some params => h db env req params
        | None => dispatch_in rs' db env req
        end
      else dispatch_in rs' db env req
  end.

Definition dispatch : Posts -> Env -> Request -> option (Response * Posts) :=
  dispatch_in routes.

(** *** Detail reads that run at the same time

    A detail read is two storage operations, the lookup and the increment, and
    operations of other requests may come between them.  A schedule names, step
    by step, the request that runs its next operation, and the time. *)
Inductive DetailRead :=
  | Reading (identifier : string)
  | Found (post : Post)
  | Responded (r : Response).

Definition detail_step (db : Posts) (now : Date) (t : DetailRead) : DetailRead * Posts :=
  match t with
  | Reading identifier =>
      match lookup_identifier db identifier with
      | None => (Responded not_found, db)
      | Some post => (Found post, db)
      end
  | Found post =>
      (Responded (Json 200 (BPost (to_json post))),
       findByIdAndUpdate db (_id post) (inc_update now))
  | Responded r => (Responded r, db)
  end.

(** The same read with the model method [incrementViewCount] in place of the
    atomic update: [this.viewCount += 1] on the document in memory, then
    [save], which writes that number. *)
Definition detail_step_rmw (db : Posts) (now : Date) (t : DetailRead) : DetailRead * Posts :=
  match t with
  | Found post =>
      (Responded (Json 200 (BPost (to_json post))),
       findByIdAndUpdate db (_id post)
         (fun p => set_updatedAt now (set_viewCount (viewCount post + 1) p)))
  | _ => detail_step db now t
  end.

Definition System : Type := Posts * list DetailRead.

Definition system_step (step : Posts -> Date -> DetailRead -> DetailRead * Posts)
    (st : System) (ev : nat * Date) : System :=
  match st.2 !! ev.1 with
  | Some t => let '(t', db') := step st.1 ev.2 t in (db', <[ev.1 := t']> st.2)
  | None => st
  end.

Definition run_schedule (step : Posts -> Date -> DetailRead -> DetailRead * Posts)
    (sched : list (nat * Date)) (st : System) : System :=
  foldl (system_step step) st sched.

Definition responded (t : DetailRead) : bool :=
  match t with Responded _ => true | _ => false end.


(** ** Invariants, and the words of the specification *)

(** Every document is stored under its own [_id]. *)
Definition wf (db : Posts) : Prop :=
  forall k p, db !! k = Some p -> _id p = k.

(** The unique index on [slug]. *)
Definition slug_unique (db : Posts) : Prop :=
  forall k1 k2 p1 p2,
    db !! k1 = Some p1 -> db !! k2 = Some p2 -> slug p1 = slug p2 -> k1 = k2.

(** The posts that a response carries. *)
Definition jsons_of (r : Response) : list PostJson :=
  match r with
  | Json _ (BPost pj) => [pj]
  | Json _ (BPosts pjs _) => pjs
  | _ => []
  end.

(** A post in a response carries no image bytes. *)
Definition no_image_bytes (pj : PostJson) : Prop :=
  forall a, featuredImage (doc pj) = Some a -> data a = None.

(** The principal may change the post: the author, or an administrator. *)
Definition canMutate (p : Post) (u : Principal) : Prop :=
  user_id u = author p \/ user_role u = "admin".

(** The candidates that [generateUniqueSlug] probes, in order: the slug of the
    title, then the slug with [-1], [-2], ... *)
Definition candidate (base : string) (k : nat) : string :=
  match k with
  | O => base
  | S _ => base +:+ "-" +:+ pretty k
  end.

(** A query parameter that does not read as a negative number. *)
Definition not_negative (v : option string) : Prop :=
  match parseInt v with
  | Some n => 0 <= n
  | None => True
  end.

(** The document that the create route inserts: the one built from the
    request, with the slug that the pre-save hook derives from the trimmed
    title. *)
Definition created_post (newId : ObjectId) (now : Date) (b : Body) (f : option File)
    (u : Principal) (title_ : string) : Post :=
  new_post newId now b f u title_ (generateSlug (Js.trim title_)).

(** The number of reads that have been answered. *)
Definition count_responded (ts : list DetailRead) : nat :=
  length (List.filter responded ts).

(** The identifier leads the detail route to the post: it is the [_id] of the
    post when the route takes it for an ObjectId, and the slug otherwise. *)
Definition resolves (ident : string) (post : Post) : Prop :=
  if ObjectId_isValid ident then ident = _id post else ident = slug post.

(** What holds of the system while [n] reads of the post [post] are under
    way: the collection keeps its invariants, the post is still stored under
    its slug, its view count has grown by the number of reads answered so far,
    and every read is about this post. *)
Definition reads_invariant (post : Post) (n : nat) (st : System) : Prop :=
  wf st.1 /\ slug_unique st.1 /\ length st.2 = n
  /\ (exists q, st.1 !! _id post = Some q /\ slug q = slug post
                /\ viewCount q = viewCount post + Z.of_nat (count_responded st.2))
  /\ Forall (fun t => (exists ident, t = Reading ident /\ resolves ident post)
                      \/ (exists q, t = Found q /\ _id q = _id post)
                      \/ (exists r, t = Responded r)) st.2.

(** ** Instances of the parameters *)

Definition is_hex (c : ascii) : bool :=
  Js.is_digit c || Js.in_range 97 102 c || Js.in_range 65 70 c.

(** An ObjectId written out: 24 hexadecimal digits. *)
Definition is_hex24 (s : string) : bool :=
  (String.length s =? 24)%nat && string_forallb is_hex s.

(** The hexadecimal form of an ObjectId that is written as 24 hexadecimal
    digits: the digits, in lower case. *)
Definition lower_hex (s : string) : ObjectId := Js.toLowerCase s.

(** A pattern without metacharacters, read as a regular expression with the
    [i] flag, tests for the pattern as a substring, letter case ignored. *)
Definition literal_i (pattern : string) : option (string -> bool) :=
  Some (fun subject => includes (Js.toLowerCase pattern) (Js.toLowerCase subject)).

(** A content is too large when it is longer than the limit; a stand-in for
    the comparison of the upload library. *)
Definition longer_than (limit_ : Z) (b : Buffer) : bool :=
  limit_ <? Z.of_nat (length b).

(** The text after the last dot of a file name, dot included; a stand-in for
    [path.extname] on plain file names. *)
Fixpoint after_last_dot (acc : string) (s : string) : string :=
  match s with
  | EmptyString => acc
  | String c s' => after_last_dot (if Ascii.eqb c "." then s else acc) s'
  end.

(** ** Sample data *)

Definition alice : Principal := mkPrincipal "64b7f0000000000000000a11" "user".
Definition bob : Principal := mkPrincipal "64b7f0000000000000000b22" "user".

Definition sample_users : Users :=
  {[ user_id alice := mkUser "alice"; user_id bob := mkUser "bob" ]}.

Definition tech : ObjectId := "64b7f0000000000000000c01".
Definition post_id_1 : ObjectId := "64b7f00000000000000000e1".
Definition post_id_2 : ObjectId := "64b7f00000000000000000e2".

Definition sample_env : Env := mkEnv sample_users post_id_2 3000.

Definition no_query : Query := mkQuery None None None None.
Definition no_body : Body := mkBody None None None None None JUndefined None.

Definition png : File :=
  mkFile [Byte.x89; Byte.x50; Byte.x4e; Byte.x47] "image/png" "logo.png".

(** Alice creates "Hello World!!", without saying [isPublished]. *)
Definition hello_body : Body :=
  mkBody (Some "Hello World!!") (Some "First post") None (Some tech) (Some "intro, news")
    JUndefined None.

Definition create_hello (f : option File) : Request :=
  mkRequest POST [] no_query hello_body f (Some alice).

(** The post that [create_hello (Some png)] leaves behind at time 1000, and
    the collection with it. *)
Definition hello_post : Post :=
  mkPost post_id_1 "Hello World!!" "First post" (Some (attachment_of png))
    "hello-world" None (user_id alice) tech ["intro"; "news"] false 0 [] 1000 1000.

Definition db_hello : gmap string Post := {[ post_id_1 := hello_post ]}.

(** A second post, by Bob, published. *)
Definition hello_published : Post :=
  mkPost post_id_2 "Hello again" "Second post" None "hello-again" None
    (user_id bob) tech [] true 0 [] 2000 2000.

Definition db_two : gmap string Post :=
  {[ post_id_1 := hello_post; post_id_2 := hello_published ]}.

(** An update of the first post with a new title. *)
Definition retitle_body : Body :=
  mkBody (Some "Hello again") (Some "First post") (Some "A greeting") (Some tech)
    (Some "intro, news") (JString "true") None.

Definition retitle (u : Principal) : Request :=
  mkRequest PUT [post_id_1] no_query retitle_body None (Some u).

(** An update that sends the first post its own values. *)
Definition resend (u : Principal) : Request :=
  mkRequest PUT [post_id_1] no_query hello_body None (Some u).

Definition comment_request (text : option string) : Request :=
  mkRequest POST [post_id_1; "comments"] no_query
    (mkBody None text None None None JUndefined None) None (Some bob).

Definition list_request (page_ limit_ : option string) : Request :=
  mkRequest GET [] (mkQuery page_ limit_ None None) no_body None (Some alice).

Definition search_request (q : option string) : Request :=
  mkRequest GET ["search"] (mkQuery None None None q) no_body None None.

(** Two reads of one post whose operations alternate. *)
Definition alternating : list (nat * Date) :=
  [(0%nat, 4000); (1%nat, 4001); (0%nat, 4002); (1%nat, 4003)].

(** ** Further notions used by the properties below *)

Definition is_hyphen (c : ascii) : bool := Ascii.eqb c "-".

(** The first character, when there is one, is of the class. *)
Definition head_in (cls : ascii -> bool) (s : string) : bool :=
  match s with
  | String c _ => cls c
  | EmptyString => false
  end.

Definition starts_with_hyphen (s : string) : bool := head_in is_hyphen s.

(** No two hyphens in a row. *)
Fixpoint no_double_hyphen (s : string) : bool :=
  match s with
  | EmptyString => true
  | String c s' => negb (is_hyphen c && starts_with_hyphen s') && no_double_hyphen s'
  end.

(** [Array.prototype.join(sep)]. *)
Fixpoint join (sep : string) (l : list string) : string :=
  match l with
  | [] => ""
  | [x] => x
  | x :: l' => x +:+ sep +:+ join sep l'
  end.

Definition is_comma (c : ascii) : bool := Ascii.eqb c ",".

(** A tag as the routes store it: not empty, without a comma, and without
    white space at either end. *)
Definition tag_ok (t : string) : bool :=
  Js.truthy t
  && string_forallb (fun c => negb (is_comma c)) t
  && String.eqb (Js.trim t) t.

(** ** The client (pages/CreatePost.jsx, pages/EditPost.jsx, services/api.js) *)

(** The state of the post form. *)
Record PostForm := mkPostForm {
  form_title : string;
  form_content : string;
  form_excerpt : string;
  form_category : string;
  form_tags : string;
  form_isPublished : bool
}.

(** [handleSubmit] of both pages:
    [formData.tags.split(',').map(tag => tag.trim()).filter(tag => tag)]. *)
Definition form_tag_list (f : PostForm) : list string :=
  List.filter Js.truthy (List.map Js.trim (Js.split "," (form_tags f))).

(** [postService.createPost] and [postService.updatePost]: the fields are
    appended to a [FormData], the array of tags joined with [','], every other
    value as the text it converts to; the server reads them back as the
    fields of [req.body]. *)
Definition formData (f : PostForm) : Body :=
  mkBody (Some (form_title f)) (Some (form_content f)) (Some (form_excerpt f))
    (Some (form_category f)) (Some (join "," (form_tag_list f)))
    (JString (if form_isPublished f then "true" else "false")) None.

(** The form of the edit page, as its effect fills it from the post that was
    fetched; the fetched category is populated, [post.category?._id] is the
    stored reference. *)
Definition edit_form (p : Post) : PostForm :=
  mkPostForm (title p) (content p) (default "" (excerpt p)) (category p)
    (join ", " (tags p)) (isPublished p).

(** [postService.getAllPosts(page, limit, category)]: the query of
    [`/posts?page=${page}&limit=${limit}`], with [`&category=${category}`]
    when a category is given. *)
Definition getAllPosts_query (page limit_ : Z) (category_ : option string) : Query :=
  mkQuery (Some (pretty page)) (Some (pretty limit_))
    (match category_ with
     | Some c => if Js.truthy c then Some c else None
     | None => None
     end)
    None.

(** The request that [getAllPosts] sends. *)
Definition getAllPosts_request (page limit_ : Z) (category_ : option string)
    (u : option Principal) : Request :=
  mkRequest GET [] (getAllPosts_query page limit_ category_)
    (mkBody None None None None None JUndefined None) None u.

(** A category that stands in the query string as it is written: word
    characters only, as in an ObjectId. *)
Definition plain_category (category_ : option string) : Prop :=
  match category_ with
  | Some c => string_forallb Js.is_word c = true
  | None => True
  end.

(** The category, when one is given, casts to an ObjectId. *)
Definition castable_category (category_ : option string) : Prop :=
  match category_ with
  | Some c => ObjectId_isValid c = true
  | None => True
  end.

(** No two posts were created at the same time, so that the order by creation
    time is the same in every query. *)
Definition distinct_createdAt (db : Posts) : Prop :=
  forall k1 k2 p1 p2,
    db !! k1 = Some p1 -> db !! k2 = Some p2 -> createdAt p1 = createdAt p2 -> k1 = k2.

(** The upload middleware lets the request through: it brings no file, or a
    file that [upload_single] accepts. *)
Definition upload_passes (req : Request) : bool :=
  match file req with
  | Some f => match upload_single f with inl _ => true | inr _ => false end
  | None => true
  end.

(** The posts on the first [k] pages, page after page. *)
Definition pages_upto (items : Z -> list PostJson) (k : nat) : list PostJson :=
  flat_map (fun i => items (Z.of_nat i)) (seq 1 k).

(** ** The routes as transitions of the collection *)

(** [served db r db']: one of the eight handlers, on some request, answers [r]
    and takes the collection from [db] to [db']. *)
Inductive served : Posts -> Response -> Posts -> Prop :=
  | served_list db req :
      served db (listPosts db req).1 (listPosts db req).2
  | served_detail db now identifier :
      served db (getPost db now identifier).1 (getPost db now identifier).2
  | served_image db i :
      served db (getImage db i).1 (getImage db i).2
  | served_create db newId now req u r db' :
      createPost db newId now req u = Some (r, db') -> served db r db'
  | served_update db i now req u :
      served db (updatePost db i now req u).1 (updatePost db i now req u).2
  | served_delete db i u :
      served db (deletePost db i u).1 (deletePost db i u).2
  | served_comment db users i now req u :
      served db (addCommentRoute db users i now req u).1
        (addCommentRoute db users i now req u).2
  | served_search db req :
      served db (searchPosts db req).1 (searchPosts db req).2.

(** The collections that the routes can build, starting with none. *)
Inductive reachable : Posts -> Prop :=
  | reachable_empty : reachable ∅
  | reachable_served db r db' : reachable db -> served db r db' -> reachable db'.

(** What a request may do to a post that it leaves in the collection: the
    [_id], the author and the creation time stay, views are not taken back,
    and comments are only added at the end. *)
Definition evolves (p p' : Post) : Prop :=
  _id p' = _id p
  /\ author p' = author p
  /\ createdAt p' = createdAt p
  /\ viewCount p <= viewCount p'
  /\ comments p `prefix_of` comments p'.

(** ** The model method [incrementViewCount] (models/Post.js) *)

(** [post.incrementViewCount()]: [this.viewCount += 1] on the document in
    memory, then [save], which writes the number that the document in memory
    now has. *)
Definition incrementViewCount (db : Posts) (doc_ : Post) (now : Date)
    : option (Post * Posts) :=
  save_document db doc_ (set_viewCount (viewCount doc_ + 1) doc_) now.

(** ** Further sample data *)

Definition gif : File :=
  mkFile [Byte.x47; Byte.x49; Byte.x46] "image/gif" "anim.GIF".

Definition page_html : File := mkFile [Byte.x3c] "text/html" "page.html".

(** Alice creates a post whose title, once trimmed, is punctuation only; the
    post that this leaves behind at time 1000, and the collection with it. *)
Definition create_punctuation : Request :=
  mkRequest POST [] no_query
    (mkBody (Some " ?!") (Some "First post") None (Some tech) None JUndefined None)
    None (Some alice).

Definition punctuation_post : Post :=
  mkPost post_id_1 "?!" "First post" None "" None (user_id alice) tech [] false 0 []
    1000 1000.

Definition db_punctuation : gmap string Post := {[ post_id_1 := punctuation_post ]}.

(** An update of the first post that says neither [tags] nor [isPublished]. *)
Definition bare_body : Body :=
  mkBody (Some "Hello World!!") (Some "First post") None (Some tech) None JUndefined None.

Definition bare_update (f : option File) : Request :=
  mkRequest PUT [post_id_1] no_query bare_body f (Some alice).

(** * Properties *)

(** ** Slug derivation *)

Lemma is_space_eq c : Js.is_space c = true -> c = " "%char.
Proof. unfold Js.is_space. apply Ascii.eqb_eq. Qed.

Lemma replace_runs_strip cls in_run s :
  Js.replace_runs_from cls "" in_run s = keep_only (fun c => negb (cls c)) s.
Proof.
  revert in_run. induction s as [|c s IH]; intros in_run; simpl; [reflexivity|].
  destruct (cls c); simpl.
  - destruct in_run; apply IH.
  - f_equal. apply IH.
Qed.

Lemma keep_only_ext f g s :
  (forall c, f c = g c) -> keep_only f s = keep_only g s.
Proof.
  intros E. induction s as [|c s IH]; simpl; [reflexivity|].
  rewrite E, IH. reflexivity.
Qed.

Lemma replace_runs_collapse s :
  Js.replace_runs_from Js.is_space "-" false s = collapse_spaces s
  /\ String "-" (Js.replace_runs_from Js.is_space "-" true s)
     = collapse_spaces (String " " s).
Proof.
  induction s as [|c s [IH1 IH2]]; [split; reflexivity|].
  cbn [Js.replace_runs_from collapse_spaces].
  change (Js.is_space " ") with true. cbn iota.
  destruct (Js.is_space c) eqn:Hc.
  - apply is_space_eq in Hc as ->. split; exact IH2.
  - rewrite IH1. split; reflexivity.
Qed.

Lemma lower_char_slug_char c :
  word_or_space (Js.lower_char c) = true ->
  Js.is_space (Js.lower_char c) = false ->
  is_slug_char (Js.lower_char c) = true.
Proof.
  destruct c as [[] [] [] [] [] [] [] []]; vm_compute; congruence.
Qed.

Lemma collapse_spaces_chars s :
  string_forallb (fun c => is_slug_char c || Js.is_space c) s = true ->
  string_forallb is_slug_char (collapse_spaces s) = true.
Proof.
  induction s as [|c s IH]; [reflexivity|].
  cbn [string_forallb collapse_spaces]. intros H.
  apply andb_true_iff in H as [Hc Hs]. specialize (IH Hs).
  destruct (Js.is_space c) eqn:Ec.
  - destruct s as [|c' s']; [reflexivity|].
    destruct (Js.is_space c'); [exact IH|].
    cbn [string_forallb]. rewrite IH. reflexivity.
  - cbn [string_forallb]. rewrite IH.
    rewrite orb_false_r in Hc. rewrite Hc. reflexivity.
Qed.

Lemma keep_only_lower_chars s :
  string_forallb (fun c => is_slug_char c || Js.is_space c)
    (keep_only word_or_space (Js.toLowerCase s)) = true.
Proof.
  induction s as [|c s IH]; [reflexivity|].
  cbn [Js.toLowerCase keep_only].
  destruct (word_or_space (Js.lower_char c)) eqn:E; [|exact IH].
  cbn [string_forallb]. rewrite IH, andb_true_r.
  destruct (Js.is_space (Js.lower_char c)) eqn:Es; [apply orb_true_r|].
  rewrite (lower_char_slug_char c E Es). reflexivity.
Qed.

(** C9.  [generateSlug] is a function of the title alone, and it computes what
    the specification describes: the title in lower case, without the
    characters that are neither word characters nor spaces, with each run of
    spaces turned into one hyphen.  The result consists of [a-z0-9_] and
    hyphens only, and "Hello World!!" gives "hello-world". *)
Theorem generateSlug_is_deriveSlug :
  (forall title : string,
      generateSlug title = deriveSlug title
      /\ string_forallb is_slug_char (generateSlug title) = true)
  /\ generateSlug "Hello World!!" = "hello-world".
Proof.
  split; [|reflexivity].
  intros t.
  assert (E : generateSlug t = deriveSlug t).
  { unfold generateSlug, deriveSlug, Js.replace_runs.
    rewrite replace_runs_strip.
    rewrite (keep_only_ext _ word_or_space)
      by (intros c; unfold not_word_or_space, word_or_space; apply negb_involutive).
    apply replace_runs_collapse. }
  split; [exact E|].
  rewrite E. unfold deriveSlug.
  apply collapse_spaces_chars, keep_only_lower_chars.
Qed.

(** ** The collection *)

Lemma elem_of_documents (db : gmap string Post) p :
  p ∈ documents db <-> exists k, db !! k = Some p.
Proof.
  unfold documents. rewrite list_elem_of_fmap. split.
  - intros [[k q] [-> H]]. exists k. by apply elem_of_map_to_list in H.
  - intros [k H]. exists (k, p). split; [done|]. by apply elem_of_map_to_list.
Qed.

Lemma length_documents (db : gmap string Post) : length (documents db) = size db.
Proof. unfold documents. rewrite length_fmap. apply length_map_to_list. Qed.

Lemma In_documents (db : gmap string Post) p :
  In p (documents db) <-> exists k, db !! k = Some p.
Proof. rewrite <- list_elem_of_In. apply elem_of_documents. Qed.

Lemma findOne_slug_Some (db : gmap string Post) s p :
  findOne_slug db s = Some p -> (exists k, db !! k = Some p) /\ slug p = s.
Proof.
  unfold findOne_slug. intros H. apply find_some in H as [Hin Heq].
  split; [by apply In_documents|]. by apply String.eqb_eq.
Qed.

Lemma findOne_slug_None (db : gmap string Post) s k p :
  findOne_slug db s = None -> db !! k = Some p -> slug p <> s.
Proof.
  unfold findOne_slug. intros H Hk E.
  eapply find_none in H; [|apply In_documents; eauto].
  simpl in H. apply String.eqb_neq in H. done.
Qed.

Lemma findOne_slug_unique (db : gmap string Post) k p :
  slug_unique db -> db !! k = Some p -> findOne_slug db (slug p) = Some p.
Proof.
  intros U Hk. destruct (findOne_slug db (slug p)) as [q|] eqn:E.
  - apply findOne_slug_Some in E as [[k' Hk'] Hs].
    assert (k' = k) as -> by (eapply U; eauto). congruence.
  - exfalso. eapply findOne_slug_None; eauto.
Qed.

Lemma findById_update (db : gmap string Post) i f :
  findById (findByIdAndUpdate db i f) i = f <$> findById db i.
Proof. apply lookup_alter_eq. Qed.

Lemma findById_update_ne (db : gmap string Post) i j f :
  i <> j -> findById (findByIdAndUpdate db i f) j = findById db j.
Proof. intros. by apply lookup_alter_ne. Qed.

(** What the update route does once the request is past the two checks. *)
Lemma updatePost_ok (db : gmap string Post) i post now req u :
  findById db i = Some post ->
  not_authorized post u = false ->
  validate_update (body req) = true ->
  updatePost db i now req u
  = (Json 200 (BPost (to_json (apply_update (body req) (file req) now post))),
     findByIdAndUpdate db i (apply_update (body req) (file req) now)).
Proof.
  intros Hf Ha Hv. unfold updatePost.
  rewrite findById_update, Hf, Ha, Hv. reflexivity.
Qed.

(** ** Authorization of update and delete *)

Lemma not_authorized_false p u :
  not_authorized p u = false <-> canMutate p u.
Proof.
  unfold not_authorized, canMutate.
  rewrite andb_false_iff, !negb_false_iff, !String.eqb_eq.
  split; (intros [H|H]; [left|right]; congruence).
Qed.

Lemma not_authorized_true p u :
  not_authorized p u = true <-> ~ canMutate p u.
Proof.
  rewrite <- not_authorized_false. destruct (not_authorized p u); split; congruence.
Qed.

(** C2.  On an existing post, an update or a delete by a principal who is
    neither the author nor an administrator is answered with 403 and leaves the
    collection as it was; and for update and delete alike the request gets past
    the authorization check (is not answered with 403) exactly when the
    principal is the author or an administrator. *)
Theorem update_delete_authorization (db : gmap string Post) i post now req u :
  findById db i = Some post ->
  (~ canMutate post u ->
     updatePost db i now req u
       = (Json 403 (BError "Not authorized to update this post"), db)
     /\ deletePost db i u
       = (Json 403 (BError "Not authorized to delete this post"), db))
  /\ (canMutate post u <-> status_of (updatePost db i now req u).1 <> 403%nat)
  /\ (canMutate post u <-> status_of (deletePost db i u).1 <> 403%nat).
Proof.
  intros Hf. unfold updatePost, deletePost. rewrite Hf.
  destruct (not_authorized post u) eqn:Ha.
  - apply not_authorized_true in Ha.
    split; [done|]. split; (split; [done|]); simpl; congruence.
  - apply not_authorized_false in Ha.
    split; [done|]. split; (split; [intros _|done]).
    + rewrite findById_update, Hf.
      destruct (negb (validate_update (body req))); simpl; lia.
    + simpl. lia.
Qed.

(** ** Listing *)

#[local] Instance newer_first_total : Total newer_first.
Proof. intros p q. unfold newer_first. lia. Qed.

#[local] Instance newer_first_trans : Transitive newer_first.
Proof. intros p q r. unfold newer_first. lia. Qed.

Lemma StronglySorted_sublist {A} (R : relation A) (l k : list A) :
  l `sublist_of` k -> StronglySorted R k -> StronglySorted R l.
Proof.
  induction 1 as [|x l k Hs IH|x l k Hs IH]; intros Hk.
  - constructor.
  - apply StronglySorted_inv in Hk as [Hk Hx]. constructor; [by apply IH|].
    rewrite list.Forall_forall in Hx |- *. intros y Hy. apply Hx.
    revert Hy. by apply sublist_subseteq.
  - apply StronglySorted_inv in Hk as [Hk _]. by apply IH.
Qed.

Lemma sorted_desc_sorted l : StronglySorted newer_first (sort_createdAt_desc l).
Proof. apply StronglySorted_merge_sort; apply _. Qed.

Lemma elem_of_sorted_desc l p : p ∈ sort_createdAt_desc l <-> p ∈ l.
Proof. unfold sort_createdAt_desc. by rewrite merge_sort_Permutation. Qed.

Lemma limit_sublist n l : limit n l `sublist_of` l.
Proof. unfold limit. destruct (n =? 0); [done|apply sublist_take]. Qed.

Lemma skip_sublist n l l' : skip n l = Some l' -> l' `sublist_of` l.
Proof.
  unfold skip. destruct (n <? 0); [done|]. intros [= <-]. apply sublist_drop.
Qed.

Lemma or_default_spec v d :
  (v = None \/ v = Some 0 -> or_default v d = d)
  /\ (forall n, v = Some n -> n <> 0 -> or_default v d = n).
Proof.
  unfold or_default. split.
  - intros [->| ->]; reflexivity.
  - intros n -> Hn. destruct (Z.eqb_spec n 0); [done|reflexivity].
Qed.

Lemma or_default_pos v d :
  0 < d -> match v with Some n => 0 <= n | None => True end -> 0 < or_default v d.
Proof.
  unfold or_default. destruct v as [n|]; [|done].
  destruct (Z.eqb_spec n 0); lia.
Qed.

(** The response of the list route, whatever the parameters: either the
    storage layer refuses the skip, or the answer is a window of the published
    posts, newest first. *)
Lemma listPosts_window (db : gmap string Post) req :
  let page := or_default (parseInt (query_page (query req))) 1 in
  let lim := or_default (parseInt (query_limit (query req))) 10 in
  let all := sort_createdAt_desc (List.filter (list_filter (query req)) (documents db)) in
  let total := Z.of_nat (length (List.filter (list_filter (query req)) (documents db))) in
  listPosts db req
  = if list_cast_fails (query req)
    then (server_error "Cast to ObjectId failed", db)
    else
      match skip ((page - 1) * lim) all with
      | None => (server_error "Skip value must be non-negative", db)
      | Some rest =>
          (Json 200 (BPosts (List.map to_json (limit lim rest))
                       (Some (mkPagination page lim total (ceil_div total lim)))), db)
      end.
Proof. reflexivity. Qed.

(** The list route leaves the collection as it is. *)
Lemma listPosts_reads (db : gmap string Post) req : (listPosts db req).2 = db.
Proof.
  rewrite listPosts_window. cbv zeta.
  destruct (list_cast_fails _); [done|]. by destruct (skip _ _).
Qed.

(** The posts in an answer of the list route: stored, published, of the
    category asked for, and the newer before the older. *)
Lemma listPosts_sorted_items (db : gmap string Post) req :
  exists items,
    jsons_of (listPosts db req).1 = List.map to_json items
    /\ StronglySorted newer_first items
    /\ forall p, p ∈ items -> p ∈ documents db /\ list_filter (query req) p = true.
Proof.
  rewrite listPosts_window. cbv zeta.
  destruct (list_cast_fails _).
  { exists []. split; [done|]. split; [constructor|]. by intros p ?%elem_of_nil. }
  destruct (skip _ _) as [rest|] eqn:Hs.
  2:{ exists []. split; [done|]. split; [constructor|]. by intros p ?%elem_of_nil. }
  eexists. split; [reflexivity|]. split.
  - eapply StronglySorted_sublist; [apply limit_sublist|].
    eapply StronglySorted_sublist; [by eapply skip_sublist|]. apply sorted_desc_sorted.
  - intros p Hp.
    apply (sublist_subseteq _ _ (limit_sublist _ _)) in Hp.
    apply (sublist_subseteq _ _ (skip_sublist _ _ _ Hs)) in Hp.
    apply elem_of_sorted_desc, list_elem_of_In, filter_In in Hp as [Hin Hf].
    split; [by apply list_elem_of_In|done].
Qed.

Lemma listPosts_items (db : gmap string Post) req pj :
  pj ∈ jsons_of (listPosts db req).1 ->
  exists p, pj = to_json p /\ p ∈ documents db /\ isPublished p = true.
Proof.
  destruct (listPosts_sorted_items db req) as (items & -> & _ & Hitems).
  intros H. apply list_elem_of_fmap in H as [p [-> Hp]]. exists p. split; [done|].
  destruct (Hitems p Hp) as [Hin Hf]. split; [done|].
  unfold list_filter in Hf. by apply andb_true_iff in Hf as [? _].
Qed.

(** C4, as amended.  [page] and [limit] take the defaults 1 and 10 when the
    parameter is absent, does not read as a number, or reads as zero, and
    otherwise are the number read.  Whatever the request, the list route
    leaves the collection as it was, no item of its answer is a draft, and the
    items are stored posts, the newer before the older.  When neither
    parameter reads as a negative number and the category, if one is given,
    casts to an ObjectId, the route answers 200: the published posts (of the
    category asked for) are put in order, the newer before the older, the
    first [(page - 1) * limit] of them are skipped and at most [limit] are
    returned, and [total] is their number.  The order among posts created at
    the same time is the storage layer's to choose.  A category that does not
    cast is answered 500. *)
Theorem listPosts_published_window (db : gmap string Post) req :
  let page := or_default (parseInt (query_page (query req))) 1 in
  let lim := or_default (parseInt (query_limit (query req))) 10 in
  (parseInt (query_page (query req)) = None
     \/ parseInt (query_page (query req)) = Some 0 -> page = 1)
  /\ (parseInt (query_limit (query req)) = None
     \/ parseInt (query_limit (query req)) = Some 0 -> lim = 10)
  /\ (forall n, parseInt (query_page (query req)) = Some n -> n <> 0 -> page = n)
  /\ (forall n, parseInt (query_limit (query req)) = Some n -> n <> 0 -> lim = n)
  /\ list_params (query req) = (page, lim, (page - 1) * lim)
  /\ (listPosts db req).2 = db
  /\ (forall pj, pj ∈ jsons_of (listPosts db req).1 -> isPublished (doc pj) = true)
  /\ (exists items,
        jsons_of (listPosts db req).1 = List.map to_json items
        /\ StronglySorted newer_first items
        /\ forall p, p ∈ items -> p ∈ documents db /\ isPublished p = true)
  /\ (not_negative (query_page (query req)) ->
      not_negative (query_limit (query req)) ->
      list_cast_fails (query req) = false ->
      exists all pg,
        Permutation all (List.filter (list_filter (query req)) (documents db))
        /\ StronglySorted newer_first all
        /\ listPosts db req
           = (Json 200
                (BPosts (List.map to_json
                           (take (Z.to_nat lim) (drop (Z.to_nat ((page - 1) * lim)) all)))
                   (Some pg)), db)
        /\ pg_page pg = page /\ pg_limit pg = lim
        /\ pg_total pg = Z.of_nat (length all))
  /\ (list_cast_fails (query req) = true ->
      status_of (listPosts db req).1 = 500%nat).
Proof.
  intros page lim.
  split; [apply or_default_spec|]. split; [apply or_default_spec|].
  split; [apply or_default_spec|]. split; [apply or_default_spec|].
  split; [reflexivity|]. split; [apply listPosts_reads|].
  split; [|split; [|split]].
  - intros pj Hin. apply listPosts_items in Hin as [p [-> [_ Hpub]]]. exact Hpub.
  - destruct (listPosts_sorted_items db req) as (items & E & Hs & Hitems).
    exists items. split; [exact E|]. split; [exact Hs|].
    intros p Hp. destruct (Hitems p Hp) as [Hin Hf]. split; [done|].
    unfold list_filter in Hf. by apply andb_true_iff in Hf as [? _].
  - intros Hp Hl Hc.
    assert (Hpage : 0 < page) by (apply or_default_pos; [lia|exact Hp]).
    assert (Hlim : 0 < lim) by (apply or_default_pos; [lia|exact Hl]).
    exists (sort_createdAt_desc (List.filter (list_filter (query req)) (documents db))).
    eexists. split; [apply merge_sort_Permutation|]. split; [apply sorted_desc_sorted|].
    split; [|split; [|split]].
    + rewrite listPosts_window. cbv zeta. rewrite Hc. fold page lim. unfold skip, limit.
      destruct (Z.ltb_spec ((page - 1) * lim) 0) as [Hneg|_]; [nia|].
      destruct (Z.eqb_spec lim 0) as [H0|_]; [lia|].
      rewrite Z.abs_eq by lia. reflexivity.
    + reflexivity.
    + reflexivity.
    + cbn [pg_total]. unfold sort_createdAt_desc. by rewrite merge_sort_Permutation.
  - intros Hc. rewrite listPosts_window. cbv zeta. by rewrite Hc.
Qed.

(** ** Unique slugs *)

Lemma string_app_empty_r s : s +:+ "" = s.
Proof. induction s as [|c s IH]; [reflexivity|]. change (String c (s +:+ "") = String c s). by rewrite IH. Qed.

#[local] Instance candidate_inj base : Inj (=) (=) (candidate base).
Proof.
  intros [|j] [|k] E; unfold candidate in E.
  - reflexivity.
  - exfalso. rewrite <- (string_app_empty_r base) in E at 1.
    apply (inj (String.app base)) in E.
    change ("" = String "-" (pretty (S k))) in E. discriminate E.
  - exfalso. rewrite <- (string_app_empty_r base) in E at 2.
    apply (inj (String.app base)) in E.
    change (String "-" (pretty (S j)) = "") in E. discriminate E.
  - apply (inj (String.app base)), (inj (String.app "-")) in E.
    by apply (inj pretty) in E.
Qed.

Lemma candidate_truthy base k : base <> "" -> Js.truthy (candidate base k) = true.
Proof. destruct base; [done|]. intros _. by destruct k. Qed.


Lemma probe_slug_Some (db : gmap string Post) base fuel k s :
  probe_slug fuel db base (candidate base k) (S k) = Some s ->
  exists j, (k <= j < k + fuel)%nat /\ s = candidate base j
            /\ findOne_slug db s = None
            /\ forall j', (k <= j' < j)%nat -> is_Some (findOne_slug db (candidate base j')).
Proof.
  revert k. induction fuel as [|fuel IH]; intros k; [discriminate|].
  cbn [probe_slug]. destruct (findOne_slug db (candidate base k)) as [q|] eqn:E.
  - intros H. apply (IH (S k)) in H as (j & Hj & -> & Hn & Hused).
    exists j. split; [lia|]. split; [done|]. split; [done|].
    intros j' Hj'. destruct (decide (j' = k)) as [->|]; [by rewrite E|].
    apply Hused. lia.
  - intros [= <-]. exists k. split; [lia|]. split; [done|]. split; [done|]. lia.
Qed.

Lemma probe_slug_None (db : gmap string Post) base fuel k :
  probe_slug fuel db base (candidate base k) (S k) = None ->
  forall j, (k <= j < k + fuel)%nat -> is_Some (findOne_slug db (candidate base j)).
Proof.
  revert k. induction fuel as [|fuel IH]; intros k; [lia|].
  cbn [probe_slug]. destruct (findOne_slug db (candidate base k)) as [q|] eqn:E; [|done].
  intros H j Hj. destruct (decide (j = k)) as [->|]; [by rewrite E|].
  apply (IH (S k)); [done|lia].
Qed.

(** The probing stops: among [size db + 1] distinct candidates one is free. *)
Lemma generateUniqueSlug_total (db : gmap string Post) t :
  is_Some (generateUniqueSlug db t).
Proof.
  unfold generateUniqueSlug.
  destruct (probe_slug _ _ _ _ _) eqn:E; [done|exfalso].
  pose proof (probe_slug_None db (generateSlug t) (S (size db)) 0 E) as Hused.
  set (cs := candidate (generateSlug t) <$> seq 0 (S (size db))).
  assert (Hsub : cs ⊆+ (slug <$> documents db)).
  { apply NoDup_submseteq.
    - apply NoDup_fmap_2; [apply _|apply NoDup_seq].
    - intros s Hs. apply list_elem_of_fmap in Hs as [j [-> Hj]].
      apply elem_of_seq in Hj.
      destruct (Hused j ltac:(lia)) as [q Hq].
      apply findOne_slug_Some in Hq as [[k' Hk'] Hs].
      apply list_elem_of_fmap. exists q. split; [done|].
      apply elem_of_documents. eauto. }
  apply submseteq_length in Hsub.
  unfold cs in Hsub. rewrite !length_fmap, length_seq, length_documents in Hsub. lia.
Qed.

(** What [generateUniqueSlug] returns: the first candidate, in the order
    base, base-1, base-2, ..., that no stored post has as its slug. *)
Lemma generateUniqueSlug_first_unused (db : gmap string Post) t :
  exists k,
    generateUniqueSlug db t = Some (candidate (generateSlug t) k)
    /\ findOne_slug db (candidate (generateSlug t) k) = None
    /\ forall j, (j < k)%nat -> is_Some (findOne_slug db (candidate (generateSlug t) j)).
Proof.
  destruct (generateUniqueSlug_total db t) as [s Hs]. rewrite Hs.
  apply (probe_slug_Some db (generateSlug t) _ 0) in Hs as (j & _ & -> & Hn & Hused).
  exists j. split; [done|]. split; [done|]. intros j' Hj'. apply Hused. lia.
Qed.

(** ** Creation *)

Lemma pre_save_new newId now b f u t s0 :
  pre_save true (new_post newId now b f u t s0) = created_post newId now b f u t.
Proof. unfold pre_save. rewrite orb_true_r. reflexivity. Qed.

Lemma insertOne_Some (db db' : gmap string Post) p :
  insertOne db p = Some db' ->
  db !! _id p = None /\ findOne_slug db (slug p) = None /\ db' = <[_id p := p]> db.
Proof.
  unfold insertOne. destruct (db !! _id p); [discriminate|].
  destruct (findOne_slug db (slug p)); [discriminate|]. by intros [= <-].
Qed.

(** The create route answers 201 only after it has inserted the document
    [created_post] under a fresh [_id] and a slug that no other post has. *)
Lemma createPost_created (db db' : gmap string Post) newId now req u r :
  createPost db newId now req u = Some (r, db') ->
  status_of r = 201%nat ->
  exists t,
    let post := created_post newId now (body req) (file req) u t in
    body_title (body req) = Some t
    /\ db !! newId = None
    /\ findOne_slug db (generateSlug (Js.trim t)) = None
    /\ db' = <[newId := post]> db
    /\ r = Json 201 (BPost (created_json post)).
Proof.
  unfold createPost. destruct (body_title (body req)) as [t|]; [|by intros [= <- <-]].
  destruct (generateUniqueSlug db t) as [s0|]; [|discriminate]. cbn [mbind option_bind].
  destruct (negb (validate_new _ _ _ _ _)); [by intros [= <- <-]|].
  rewrite pre_save_new.
  destruct (insertOne db _) as [db1|] eqn:Hi; [|by intros [= <- <-]].
  intros [= <- <-] _. apply insertOne_Some in Hi as (Hid & Hslug & ->).
  exists t. cbv zeta. split; [done|]. split; [exact Hid|]. split; [exact Hslug|].
  split; reflexivity.
Qed.

Lemma insertOne_taken (db : gmap string Post) k q p :
  db !! k = Some q -> slug q = slug p -> insertOne db p = None.
Proof.
  intros Hk Hs. unfold insertOne.
  destruct (findOne_slug db (slug p)) eqn:E.
  - by destruct (db !! _id p).
  - exfalso. eapply findOne_slug_None; eauto.
Qed.

Lemma validate_new_slug t c s s' e cat :
  Js.truthy s = true -> Js.truthy s' = true ->
  validate_new t c s e cat = validate_new t c s' e cat.
Proof. intros H H'. unfold validate_new. by rewrite H, H'. Qed.

(** C1 on the code.  Two posts are created one after the other from titles
    that derive the same slug.  The first is stored under that slug.  For the
    second, [generateUniqueSlug] does find a candidate that no post has, but
    the pre-save hook replaces it by the slug of the title, because the title
    of a new document counts as modified; the insert then meets the unique
    index, the route answers 400 (500 if the request fails validation), and no
    second post is stored.  The slug a post is stored under is derived from
    the title as the schema trims it. *)
Theorem second_create_with_same_slug_is_refused
    (db0 db1 : gmap string Post) id1 id2 now1 now2 req1 req2 u1 u2 t1 t2 r1 :
  body_title (body req1) = Some t1 ->
  body_title (body req2) = Some t2 ->
  generateSlug (Js.trim t1) = generateSlug (Js.trim t2) ->
  createPost db0 id1 now1 req1 u1 = Some (r1, db1) ->
  status_of r1 = 201%nat ->
  (exists p1, db1 !! id1 = Some p1 /\ slug p1 = generateSlug (Js.trim t1))
  /\ (exists k, generateUniqueSlug db1 t2 = Some (candidate (generateSlug t2) k)
                /\ findOne_slug db1 (candidate (generateSlug t2) k) = None)
  /\ (exists r2, createPost db1 id2 now2 req2 u2 = Some (r2, db1)
                 /\ (status_of r2 = 400%nat \/ status_of r2 = 500%nat))
  /\ (generateSlug t2 <> "" ->
      validate_new (Js.trim t2) (body_content (body req2)) "-"
        (body_excerpt (body req2)) (body_category (body req2)) = true ->
      createPost db1 id2 now2 req2 u2
      = Some (Json 400 (BError "Post with this title already exists"), db1)).
Proof.
  intros Ht1 Ht2 Hslug Hc1 H201.
  destruct (createPost_created _ _ _ _ _ _ _ Hc1 H201) as (t & Ht & _ & _ & -> & _).
  rewrite Ht1 in Ht. injection Ht as <-.
  set (post1 := created_post id1 now1 (body req1) (file req1) u1 t1).
  assert (H1 : <[id1:=post1]> db0 !! id1 = Some post1) by apply lookup_insert_eq.
  destruct (generateUniqueSlug_first_unused (<[id1:=post1]> db0) t2) as (k & Hk & Hfree & _).
  assert (Hins : forall s0,
             insertOne (<[id1:=post1]> db0)
               (pre_save true (new_post id2 now2 (body req2) (file req2) u2 t2 s0)) = None).
  { intros s0. rewrite pre_save_new. eapply insertOne_taken; [exact H1|]. exact Hslug. }
  split; [by exists post1|]. split; [by exists k|].
  unfold createPost. rewrite Ht2, Hk. cbn [mbind option_bind]. rewrite Hins.
  split.
  - destruct (negb (validate_new _ _ _ _ _)); eexists; (split; [reflexivity|]); simpl; auto.
  - intros Hne Hv. cbn [new_post title slug].
    rewrite (validate_new_slug _ _ _ "-"), Hv; [reflexivity| |reflexivity].
    by apply candidate_truthy.
Qed.

(** ** Responses carry no image bytes *)

Lemma to_json_no_bytes p : no_image_bytes (to_json p).
Proof.
  intros a. unfold to_json, exclude_image_data. cbn [doc featuredImage].
  destruct (featuredImage p); [|discriminate]. by intros [= <-].
Qed.

Lemma to_json_hasFeaturedImage p a :
  featuredImage p = Some a -> hasFeaturedImage (to_json p) = true.
Proof. intros _. reflexivity. Qed.

Lemma lookup_identifier_Some (db : gmap string Post) ident p :
  lookup_identifier db ident = Some p -> exists k, db !! k = Some p.
Proof.
  unfold lookup_identifier, findById. destruct (ObjectId_isValid ident).
  - eauto.
  - intros H. by apply findOne_slug_Some in H as [? _].
Qed.

Lemma wf_insert (db : gmap string Post) p : wf db -> wf (<[_id p := p]> db).
Proof.
  intros Hwf k q. destruct (decide (_id p = k)) as [<-|Hne].
  - rewrite lookup_insert_eq. by intros [= <-].
  - rewrite lookup_insert_ne by done. apply Hwf.
Qed.

(** C6.  A post is created with an attached file.  Then the image route
    returns the bytes of the file under the MIME type of the file; the 201
    answer, every detail answer and every list answer for the post carry no
    image bytes and say [hasFeaturedImage: true]; no post in any list or detail
    answer carries image bytes; and the image route answers 404 for a post
    that has no attachment. *)
Theorem image_round_trip (db db' : gmap string Post) newId now req u f r :
  wf db ->
  file req = Some f ->
  createPost db newId now req u = Some (r, db') ->
  status_of r = 201%nat ->
  getImage db' newId = (Send (mimetype f) (buffer f), db')
  /\ (exists pj, r = Json 201 (BPost pj)
                 /\ featuredImage (doc pj) = None /\ hasFeaturedImage pj = true)
  /\ (forall now' ident p,
        lookup_identifier db' ident = Some p -> _id p = newId ->
        exists pj, (getPost db' now' ident).1 = Json 200 (BPost pj)
                   /\ no_image_bytes pj /\ hasFeaturedImage pj = true)
  /\ (forall lreq pj,
        pj ∈ jsons_of (listPosts db' lreq).1 ->
        no_image_bytes pj /\ (_id (doc pj) = newId -> hasFeaturedImage pj = true))
  /\ (forall (db2 : gmap string Post) now' ident pj,
        pj ∈ jsons_of (getPost db2 now' ident).1 -> no_image_bytes pj)
  /\ (forall (db2 : gmap string Post) i p,
        findById db2 i = Some p -> featuredImage p = None ->
        getImage db2 i = (Json 404 (BError "Image not found"), db2)).
Proof.
  intros Hwf Hfile Hc H201.
  destruct (createPost_created _ _ _ _ _ _ _ Hc H201) as (t & _ & _ & _ & -> & ->).
  set (post := created_post newId now (body req) (file req) u t).
  assert (Himg : featuredImage post = Some (attachment_of f))
    by (unfold post, created_post, new_post; cbn; by rewrite Hfile).
  assert (Hwf' : wf (<[newId:=post]> db)) by (apply (wf_insert db post Hwf)).
  assert (Hlook : <[newId:=post]> db !! newId = Some post) by apply lookup_insert_eq.
  assert (Hsame : forall k p, <[newId:=post]> db !! k = Some p -> _id p = newId -> p = post).
  { intros k p Hk Hid. apply Hwf' in Hk as Hk'. rewrite Hid in Hk'. subst k. congruence. }
  split; [|split; [|split; [|split; [|split]]]].
  - unfold getImage, findById. rewrite Hlook, Himg. reflexivity.
  - eexists. split; [reflexivity|]. split; reflexivity.
  - intros now' ident p Hp Hid. unfold getPost. rewrite Hp.
    destruct (lookup_identifier_Some _ _ _ Hp) as [k Hk].
    rewrite (Hsame k p Hk Hid). eexists. split; [reflexivity|].
    split; [apply to_json_no_bytes|]. by eapply to_json_hasFeaturedImage.
  - intros lreq pj Hin. apply listPosts_items in Hin as (p & -> & Hdoc & _).
    split; [apply to_json_no_bytes|]. intros Hid.
    apply elem_of_documents in Hdoc as [k Hk].
    rewrite (Hsame k p Hk Hid). by eapply to_json_hasFeaturedImage.
  - intros db2 now' ident pj. unfold getPost.
    destruct (lookup_identifier db2 ident); cbn.
    + intros ->%list_elem_of_singleton. apply to_json_no_bytes.
    + by intros ?%elem_of_nil.
  - intros db2 i p Hp Hnone. unfold getImage. by rewrite Hp, Hnone.
Qed.

(** ** Drafts *)

Lemma coerce_isPublished_true v :
  coerce_isPublished v = true <-> v = JBool true \/ v = JString "true".
Proof.
  destruct v as [| |b|n|s]; simpl; try (split; [discriminate|intros [?|?]; discriminate]).
  - split; [intros ->; by left|]. intros [[= ->]|?]; [done|discriminate].
  - rewrite String.eqb_eq. split; [intros ->; by right|].
    intros [?|[= ->]]; [discriminate|done].
Qed.

Lemma searchPosts_items (db : gmap string Post) req pj :
  pj ∈ jsons_of (searchPosts db req).1 ->
  exists p, pj = to_json p /\ p ∈ documents db /\ isPublished p = true.
Proof.
  unfold searchPosts. destruct (query_q (query req)) as [q|]; [|by intros ?%elem_of_nil].
  destruct (negb (Js.truthy q)); [by intros ?%elem_of_nil|].
  destruct (RegExp_i q) as [test|]; [|by intros ?%elem_of_nil].
  cbn [jsons_of fst]. intros H. apply list_elem_of_fmap in H as [p [-> Hp]].
  exists p. split; [done|].
  apply (sublist_subseteq _ _ (limit_sublist _ _)) in Hp.
  apply elem_of_sorted_desc, list_elem_of_In, filter_In in Hp as [Hin Hf].
  split; [by apply list_elem_of_In|].
  unfold search_match in Hf. by apply andb_true_iff in Hf as [? _].
Qed.

(** C10.  When the create route stores a post from a request whose
    [isPublished] is neither the boolean [true] nor the string "true" (absent,
    for one), the post is a draft: [isPublished] is false in the stored
    document and in the 201 answer, and neither the list route nor the search
    handler returns it; both return published posts only. *)
Theorem create_without_publish_flag_is_draft (db db' : gmap string Post) newId now req u r :
  body_isPublished (body req) <> JBool true ->
  body_isPublished (body req) <> JString "true" ->
  createPost db newId now req u = Some (r, db') ->
  status_of r = 201%nat ->
  exists post,
    db' !! newId = Some post
    /\ isPublished post = false
    /\ (forall pj, pj ∈ jsons_of r -> isPublished (doc pj) = false)
    /\ (forall lreq pj, pj ∈ jsons_of (listPosts db' lreq).1 ->
          isPublished (doc pj) = true /\ pj <> to_json post)
    /\ (forall sreq pj, pj ∈ jsons_of (searchPosts db' sreq).1 ->
          isPublished (doc pj) = true /\ pj <> to_json post).
Proof.
  intros Hb Hs Hc H201.
  destruct (createPost_created _ _ _ _ _ _ _ Hc H201) as (t & _ & _ & _ & -> & ->).
  set (post := created_post newId now (body req) (file req) u t).
  assert (Hdraft : isPublished post = false).
  { unfold post, created_post, new_post. cbn [isPublished].
    destruct (coerce_isPublished (body_isPublished (body req))) eqn:E; [|done].
    apply coerce_isPublished_true in E as [E|E]; contradiction. }
  exists post. split; [apply lookup_insert_eq|]. split; [exact Hdraft|].
  split; [|split].
  - intros pj ->%list_elem_of_singleton. exact Hdraft.
  - intros lreq pj Hin. apply listPosts_items in Hin as (p & -> & _ & Hpub).
    split; [exact Hpub|]. intros E. apply (f_equal (fun j => isPublished (doc j))) in E.
    change (isPublished p = isPublished post) in E. congruence.
  - intros sreq pj Hin. apply searchPosts_items in Hin as (p & -> & _ & Hpub).
    split; [exact Hpub|]. intros E. apply (f_equal (fun j => isPublished (doc j))) in E.
    change (isPublished p = isPublished post) in E. congruence.
Qed.

(** ** Update *)

(** C7, as amended.  A successful update leaves [_id], [slug], [author],
    [viewCount], [comments] and [createdAt] of the post as they were, and leaves
    every other post as it was: the paths that may change are [title],
    [content], [excerpt], [category], [tags], [isPublished], [featuredImage],
    and [updatedAt], which is set to the time of the update. *)
Theorem update_frame (db db' : gmap string Post) i now req u post pj :
  findById db i = Some post ->
  updatePost db i now req u = (Json 200 (BPost pj), db') ->
  exists post',
    db' !! i = Some post'
    /\ (forall j, j <> i -> db' !! j = db !! j)
    /\ _id post' = _id post
    /\ slug post' = slug post
    /\ author post' = author post
    /\ viewCount post' = viewCount post
    /\ comments post' = comments post
    /\ createdAt post' = createdAt post
    /\ updatedAt post' = now
    /\ pj = to_json post'.
Proof.
  intros Hf Hu.
  destruct (not_authorized post u) eqn:Ha.
  { unfold updatePost in Hu. rewrite Hf, Ha in Hu. discriminate Hu. }
  destruct (validate_update (body req)) eqn:Hv.
  2:{ unfold updatePost in Hu. rewrite Hf, Ha, Hv in Hu. discriminate Hu. }
  rewrite (updatePost_ok db i post now req u Hf Ha Hv) in Hu.
  injection Hu as <- <-.
  exists (apply_update (body req) (file req) now post).
  split; [by rewrite (findById_update db i _ : _ !! i = _), Hf|].
  split; [intros j Hj; by apply lookup_alter_ne|].
  repeat split.
Qed.

(** ** Comments *)

(** What the comment route does once the content is there and the parameter
    is cast. *)
Lemma commentRoute_cast (db : gmap string Post) users param now req u text :
  body_content (body req) = Some text -> text <> "" ->
  commentRoute db users param now req u
  = match castObjectId param with
    | Some i => addCommentRoute db users i now req u
    | None => (server_error "Cast to ObjectId failed", db)
    end.
Proof.
  intros Hc Hne. unfold commentRoute. rewrite Hc.
  assert (Ht : Js.truthy text = true) by (by destruct text). by rewrite Ht.
Qed.

(** C8, as amended.  The comment route answers 400 when the content is absent
    or empty.  Otherwise it answers 500, and appends nothing, when the
    parameter does not cast to an ObjectId, and 404 when it casts and there is
    no post with that [_id].  Otherwise the post is saved with the comment:
    when the post has a slug, as the schema requires, the route appends one
    comment, by the principal, with the given content and the current time,
    to the end of the comments of the post, stores the post, and answers 201
    with all the comments of the post, each with the [username] of its author
    filled in; the other fields of the post, [updatedAt] apart, stay as they
    are.  When the slug of the post is empty, the save fails validation, and
    the route answers 500 and appends nothing. *)
Theorem addComment_appends (db : gmap string Post) users param now req u :
  wf db ->
  (body_content (body req) = None \/ body_content (body req) = Some "" ->
     commentRoute db users param now req u
     = (Json 400 (BErrors ["Comment content is required"]), db))
  /\ (forall text,
        body_content (body req) = Some text -> text <> "" ->
        castObjectId param = None ->
        status_of (commentRoute db users param now req u).1 = 500%nat
        /\ (commentRoute db users param now req u).2 = db)
  /\ (forall text i,
        body_content (body req) = Some text -> text <> "" ->
        castObjectId param = Some i ->
        findById db i = None ->
        commentRoute db users param now req u = (not_found, db))
  /\ (forall text i post,
        body_content (body req) = Some text -> text <> "" ->
        castObjectId param = Some i ->
        findById db i = Some post ->
        slug post = "" ->
        status_of (commentRoute db users param now req u).1 = 500%nat
        /\ (commentRoute db users param now req u).2 = db)
  /\ (forall text i post,
        body_content (body req) = Some text -> text <> "" ->
        castObjectId param = Some i ->
        findById db i = Some post ->
        slug post <> "" ->
        exists post',
          post' = set_updatedAt now (push_comment (user_id u) text now post)
          /\ comments post' = (comments post ++ [mkComment (user_id u) text now])%list
          /\ commentRoute db users param now req u
             = (Json 201 (BComments
                            (List.map (populate_comment users) (comments post)
                             ++ [mkCommentJson
                                   ((fun usr => (user_id u, username usr)) <$> users !! user_id u)
                                   text now])%list),
                <[i := post']> db)).
Proof.
  intros Hwf. split; [|split; [|split; [|split]]].
  - unfold commentRoute. intros [-> | ->]; reflexivity.
  - intros text Hc Hne Hcast. rewrite (commentRoute_cast _ _ _ _ _ _ text Hc Hne), Hcast.
    split; reflexivity.
  - intros text i Hc Hne Hcast Hf.
    rewrite (commentRoute_cast _ _ _ _ _ _ text Hc Hne), Hcast.
    unfold addCommentRoute. rewrite Hc, Hf. by destruct text.
  - intros text i post Hc Hne Hcast Hf Hslug.
    rewrite (commentRoute_cast _ _ _ _ _ _ text Hc Hne), Hcast.
    unfold addCommentRoute. rewrite Hc, Hf.
    assert (Ht : Js.truthy text = true) by (by destruct text). rewrite Ht. cbn [negb].
    unfold addComment, save_document, validate_stored. cbn [push_comment slug].
    rewrite Hslug. split; reflexivity.
  - intros text i post Hc Hne Hcast Hf Hslug.
    rewrite (commentRoute_cast _ _ _ _ _ _ text Hc Hne), Hcast.
    unfold addCommentRoute. rewrite Hc, Hf.
    assert (Ht : Js.truthy text = true) by (by destruct text). rewrite Ht. cbn [negb].
    assert (Hs : Js.truthy (slug post) = true) by (by destruct (slug post)).
    assert (Hpre : pre_save false (push_comment (user_id u) text now post)
                   = push_comment (user_id u) text now post).
    { unfold pre_save. cbn [push_comment slug]. by rewrite Hs. }
    unfold addComment, save_document, validate_stored. cbn [push_comment slug].
    rewrite Hs. cbn [negb].
    change (mkPost (_id post) (title post) (content post) (featuredImage post) (slug post)
              (excerpt post) (author post) (category post) (tags post) (isPublished post)
              (viewCount post) (comments post ++ [mkComment (user_id u) text now])
              (createdAt post) (updatedAt post))
      with (push_comment (user_id u) text now post).
    rewrite Hpre. unfold save. cbn [set_updatedAt push_comment slug].
    rewrite String.eqb_refl. cbn [mbind option_bind]. rewrite (Hwf i post Hf).
    eexists. split; [reflexivity|]. split; [reflexivity|].
    cbn [comments set_updatedAt push_comment]. rewrite map_app. cbn [List.map].
    unfold populate_comment at 2. cbn [comment_user comment_content comment_createdAt].
    by destruct (users !! user_id u).
Qed.

(** ** Routing of the search request *)

(** C5 on the code.  A GET request for the path [/search] never reaches the
    search handler: the route [/:id] is registered before it and matches the
    path, with "search" as the identifier.  Unless "search" passes for an
    ObjectId or is the slug of a post, the answer is 404 "Post not found",
    whatever the query and whatever the posts are. *)
Theorem search_request_is_served_by_detail_route (db : gmap string Post) env req :
  method req = GET ->
  path req = ["search"] ->
  dispatch db env req = Some (getPost db (env_now env) "search")
  /\ (ObjectId_isValid "search" = false ->
      findOne_slug db "search" = None ->
      dispatch db env req = Some (not_found, db)).
Proof.
  intros Hm Hp.
  assert (E : dispatch db env req = Some (getPost db (env_now env) "search")).
  { unfold dispatch, routes. cbn [dispatch_in]. rewrite Hm, Hp. reflexivity. }
  split; [exact E|]. intros Hv Hs. rewrite E.
  unfold getPost, lookup_identifier. by rewrite Hv, Hs.
Qed.

(** ** Detail reads that run at the same time *)

(** One handler run is the two operations in a row. *)
Lemma getPost_two_steps (db : gmap string Post) now ident :
  let '(t1, db1) := detail_step db now (Reading ident) in
  let '(t2, db2) := detail_step db1 now t1 in
  (t2, db2) = (Responded (getPost db now ident).1, (getPost db now ident).2).
Proof.
  unfold getPost. cbn [detail_step].
  destruct (lookup_identifier db ident); reflexivity.
Qed.

Lemma count_responded_insert ts j t t' :
  ts !! j = Some t ->
  (count_responded (<[j:=t']> ts) + (if responded t then 1 else 0)
   = count_responded ts + (if responded t' then 1 else 0))%nat.
Proof.
  unfold count_responded. revert j. induction ts as [|a ts IH]; intros j Hj; [done|].
  destruct j as [|j]; cbn in Hj |- *.
  - injection Hj as ->. destruct (responded t), (responded t'); cbn; lia.
  - specialize (IH j Hj). destruct (responded a); cbn; [f_equal|]; exact IH.
Qed.

Lemma count_responded_all ts :
  Forall (fun t => responded t = true) ts -> count_responded ts = length ts.
Proof.
  unfold count_responded. induction 1 as [|t ts Ht _ IH]; [done|].
  cbn. rewrite Ht. cbn. by rewrite IH.
Qed.

Lemma wf_inc (db : gmap string Post) i now : wf db -> wf (findByIdAndUpdate db i (inc_update now)).
Proof.
  intros Hwf k p. unfold findByIdAndUpdate.
  destruct (decide (i = k)) as [<-|Hne].
  - rewrite lookup_alter_eq. destruct (db !! i) as [q|] eqn:E; [|discriminate].
    intros [= <-]. cbn. by apply Hwf.
  - rewrite lookup_alter_ne by done. apply Hwf.
Qed.

Lemma slug_unique_inc (db : gmap string Post) i now :
  slug_unique db -> slug_unique (findByIdAndUpdate db i (inc_update now)).
Proof.
  intros U k1 k2 p1 p2 H1 H2 Hs. unfold findByIdAndUpdate in H1, H2.
  assert (Hpre : forall k p, alter (inc_update now) i db !! k = Some p ->
                             exists q, db !! k = Some q /\ slug q = slug p).
  { intros k p. destruct (decide (i = k)) as [<-|Hne].
    - rewrite lookup_alter_eq. destruct (db !! i) as [q|]; [|discriminate].
      intros [= <-]. by exists q.
    - rewrite lookup_alter_ne by done. intros H. by exists p. }
  destruct (Hpre _ _ H1) as (q1 & Hq1 & E1). destruct (Hpre _ _ H2) as (q2 & Hq2 & E2).
  eapply U; eauto. congruence.
Qed.

Lemma lookup_identifier_resolves (db : gmap string Post) ident post :
  wf db -> lookup_identifier db ident = Some post -> resolves ident post.
Proof.
  intros Hwf. unfold lookup_identifier, resolves, findById.
  destruct (ObjectId_isValid ident).
  - intros H. symmetry. by apply Hwf.
  - intros H. apply findOne_slug_Some in H as [_ Hs]. done.
Qed.

Lemma resolves_lookup_identifier (db : gmap string Post) ident post q :
  slug_unique db -> resolves ident post ->
  db !! _id post = Some q -> slug q = slug post ->
  lookup_identifier db ident = Some q.
Proof.
  intros Hu Hres Hq Hslug. unfold lookup_identifier, resolves, findById in *.
  destruct (ObjectId_isValid ident).
  - by rewrite Hres.
  - rewrite Hres, <- Hslug. by apply (findOne_slug_unique db (_id post)).
Qed.

Lemma reads_invariant_step post n st ev :
  reads_invariant post n st ->
  reads_invariant post n (system_step detail_step st ev).
Proof.
  intros (Hwf & Hu & Hlen & (q & Hq & Hslug & Hviews) & Hall).
  destruct st as [db ts], ev as [j now]. unfold system_step. cbn [fst snd] in *.
  destruct (ts !! j) as [t|] eqn:Hj; [|by unfold reads_invariant; eauto 10].
  pose proof (count_responded_insert ts j t) as Hcount.
  rewrite list.Forall_forall in Hall.
  destruct (Hall t (list_elem_of_lookup_2 _ _ _ Hj))
    as [(ident & -> & Hres)|[(q' & -> & Hid)|(r & ->)]].
  - (* the lookup *)
    cbn [detail_step]. rewrite (resolves_lookup_identifier db ident post q Hu Hres Hq Hslug).
    unfold reads_invariant. cbn [fst snd].
    specialize (Hcount (Found q) Hj). cbn in Hcount.
    split; [done|]. split; [done|]. split; [by rewrite length_insert|].
    split; [exists q; repeat split; [done..|]; rewrite Hviews; lia|].
    apply Forall_insert; [by apply list.Forall_forall|].
    right; left. exists q. split; [done|]. by apply Hwf.
  - (* the increment *)
    cbn [detail_step]. unfold reads_invariant. cbn [fst snd]. rewrite Hid.
    specialize (Hcount (Responded (Json 200 (BPost (to_json q')))) Hj). cbn in Hcount.
    split; [by apply wf_inc|]. split; [by apply slug_unique_inc|].
    split; [by rewrite length_insert|].
    split.
    + exists (inc_update now q). unfold findByIdAndUpdate.
      rewrite lookup_alter_eq, Hq. split; [done|]. split; [done|].
      cbn. rewrite Hviews. lia.
    + apply Forall_insert; [by apply list.Forall_forall|]. right; right. eauto.
  - (* answered already *)
    cbn [detail_step]. unfold reads_invariant. cbn [fst snd].
    rewrite list_insert_id by done.
    repeat split; eauto. by apply list.Forall_forall.
Qed.

Lemma reads_invariant_run post n sched st :
  reads_invariant post n st ->
  reads_invariant post n (run_schedule detail_step sched st).
Proof.
  unfold run_schedule. revert st.
  induction sched as [|ev sched IH]; intros st Hinv; [exact Hinv|].
  cbn [foldl]. apply IH. by apply reads_invariant_step.
Qed.

(** C3.  Detail reads of one post, each by the [_id] or by the slug of the
    post, run at the same time, their storage operations interleaved in any
    order.  When all of them have been answered, the view count of the post is
    larger by exactly their number: the increment is one atomic update of the
    stored document, so none is lost. *)
Theorem concurrent_detail_reads_count_every_view
    (db db' : gmap string Post) idents post sched ts' :
  wf db ->
  slug_unique db ->
  db !! _id post = Some post ->
  Forall (fun ident => lookup_identifier db ident = Some post) idents ->
  run_schedule detail_step sched (db, Reading <$> idents) = (db', ts') ->
  Forall (fun t => responded t = true) ts' ->
  exists post',
    db' !! _id post = Some post'
    /\ viewCount post' = viewCount post + Z.of_nat (length idents).
Proof.
  intros Hwf Hu Hpost Hlook Hrun Hdone.
  assert (Hzero : count_responded (Reading <$> idents) = 0%nat).
  { unfold count_responded. clear. induction idents as [|i l IH]; [done|exact IH]. }
  assert (Hinit : reads_invariant post (length idents) (db, Reading <$> idents)).
  { unfold reads_invariant. cbn [fst snd].
    split; [done|]. split; [done|]. split; [apply length_fmap|]. split.
    - exists post. rewrite Hzero. split; [done|]. split; [done|lia].
    - apply Forall_fmap. eapply Forall_impl; [exact Hlook|].
      intros ident Hi. left. exists ident. split; [done|].
      by apply (lookup_identifier_resolves db). }
  pose proof (reads_invariant_run post _ sched _ Hinit) as Hfin.
  rewrite Hrun in Hfin.
  destruct Hfin as (_ & _ & Hlen & (q & Hq & _ & Hviews) & _). cbn [fst snd] in *.
  exists q. split; [done|]. rewrite Hviews, (count_responded_all _ Hdone), Hlen. done.
Qed.

(** ** The invariants hold of the collections that the create route builds *)

Lemma wf_empty : wf (∅ : gmap string Post).
Proof. intros k p H. rewrite lookup_empty in H. discriminate H. Qed.

Lemma slug_unique_empty : slug_unique (∅ : gmap string Post).
Proof. intros k1 k2 p1 p2 H. rewrite lookup_empty in H. discriminate H. Qed.

Lemma createPost_keeps_invariants (db db' : gmap string Post) newId now req u r :
  wf db -> slug_unique db ->
  createPost db newId now req u = Some (r, db') ->
  wf db' /\ slug_unique db'.
Proof.
  intros Hwf Hu Hc.
  assert (Hsame : db' = db \/ exists p, insertOne db p = Some db').
  { unfold createPost in Hc. destruct (body_title (body req)) as [t|]; [|left; congruence].
    destruct (generateUniqueSlug db t) as [s0|]; [|discriminate]. cbn [mbind option_bind] in Hc.
    destruct (negb (validate_new _ _ _ _ _)); [left; congruence|].
    destruct (insertOne db _) as [db1|] eqn:Hi; [|left; congruence].
    right. injection Hc as _ <-. eauto. }
  destruct Hsame as [->|[p Hi]]; [done|].
  apply insertOne_Some in Hi as (Hid & Hslug & ->). split; [by apply wf_insert|].
  intros k1 k2 p1 p2 H1 H2 Hs.
  destruct (decide (_id p = k1)) as [<-|N1], (decide (_id p = k2)) as [<-|N2]; [done|..].
  - rewrite lookup_insert_eq in H1. rewrite lookup_insert_ne in H2 by done.
    injection H1 as <-. exfalso. eapply findOne_slug_None; eauto.
  - rewrite lookup_insert_eq in H2. rewrite lookup_insert_ne in H1 by done.
    injection H2 as <-. exfalso. eapply findOne_slug_None; eauto.
  - rewrite lookup_insert_ne in H1, H2 by done. eauto.
Qed.

(** * Further properties of the model and the routes *)

(** ** Slugs *)

(** X1.  [generateUniqueSlug] stops after at most one probe per stored post
    and one more, and returns the first of the candidates base, base-1,
    base-2, ... that no stored post has as its slug: the result is free, and
    every candidate before it is the slug of a stored post. *)
Theorem generateUniqueSlug_returns_first_free (db : gmap string Post) t :
  exists k,
    (k <= size db)%nat
    /\ generateUniqueSlug db t = Some (candidate (generateSlug t) k)
    /\ (forall i p, db !! i = Some p -> slug p <> candidate (generateSlug t) k)
    /\ (forall j, (j < k)%nat ->
          exists i p, db !! i = Some p /\ slug p = candidate (generateSlug t) j).
Proof.
  destruct (generateUniqueSlug_total db t) as [s Hs]. rewrite Hs.
  apply (probe_slug_Some db (generateSlug t) _ 0) in Hs as (k & Hk & -> & Hfree & Hused).
  exists k. split; [lia|]. split; [done|]. split.
  - intros i p Hp. by eapply findOne_slug_None.
  - intros j Hj. destruct (Hused j ltac:(lia)) as [q Hq].
    apply findOne_slug_Some in Hq as [[i Hi] Hs]. eauto.
Qed.

Lemma generateSlug_unfold t :
  generateSlug t = collapse_spaces (keep_only word_or_space (Js.toLowerCase t)).
Proof.
  unfold generateSlug, Js.replace_runs. rewrite replace_runs_strip.
  rewrite (keep_only_ext _ word_or_space)
    by (intros c; unfold not_word_or_space, word_or_space; apply negb_involutive).
  apply replace_runs_collapse.
Qed.

Lemma lower_char_idem c : Js.lower_char (Js.lower_char c) = Js.lower_char c.
Proof. destruct c as [[] [] [] [] [] [] [] []]; reflexivity. Qed.

Lemma word_or_space_lower c : word_or_space (Js.lower_char c) = word_or_space c.
Proof. destruct c as [[] [] [] [] [] [] [] []]; reflexivity. Qed.

Lemma toLowerCase_idem s : Js.toLowerCase (Js.toLowerCase s) = Js.toLowerCase s.
Proof.
  induction s as [|c s IH]; [reflexivity|]. cbn [Js.toLowerCase].
  by rewrite lower_char_idem, IH.
Qed.

Lemma toLowerCase_keep_only s :
  Js.toLowerCase (keep_only word_or_space s)
  = keep_only word_or_space (Js.toLowerCase s).
Proof.
  induction s as [|c s IH]; [reflexivity|]. cbn [Js.toLowerCase keep_only].
  rewrite word_or_space_lower. destruct (word_or_space c); [|exact IH].
  cbn [Js.toLowerCase]. by rewrite IH.
Qed.

Lemma keep_only_idem f s : keep_only f (keep_only f s) = keep_only f s.
Proof.
  induction s as [|c s IH]; [reflexivity|]. cbn [keep_only].
  destruct (f c) eqn:E; [|exact IH]. cbn [keep_only]. by rewrite E, IH.
Qed.

Lemma keep_only_no_hyphen s :
  string_forallb (fun c => negb (is_hyphen c)) (keep_only word_or_space s) = true.
Proof.
  induction s as [|c s IH]; [reflexivity|]. cbn [keep_only].
  destruct (word_or_space c) eqn:E; [|exact IH].
  cbn [string_forallb]. rewrite IH, andb_true_r.
  destruct c as [[] [] [] [] [] [] [] []]; try reflexivity; discriminate E.
Qed.

Lemma collapse_spaces_no_double_hyphen s :
  string_forallb (fun c => negb (is_hyphen c)) s = true ->
  no_double_hyphen (collapse_spaces s) = true
  /\ (starts_with_hyphen (collapse_spaces s) = true -> head_in Js.is_space s = true).
Proof.
  induction s as [|c s IH]; [by split|].
  cbn [string_forallb]. intros [Hc Hs]%andb_true_iff. destruct (IH Hs) as [IH1 IH2].
  cbn [collapse_spaces head_in].
  destruct (Js.is_space c) eqn:Ec.
  - split; [|done]. destruct s as [|c' s']; [reflexivity|].
    destruct (Js.is_space c') eqn:Ec'; [exact IH1|].
    cbn [no_double_hyphen]. rewrite IH1, andb_true_r.
    destruct (starts_with_hyphen (collapse_spaces (String c' s'))) eqn:E; [|by rewrite andb_false_r].
    specialize (IH2 eq_refl). cbn [head_in] in IH2. congruence.
  - cbn [no_double_hyphen starts_with_hyphen head_in]. apply negb_true_iff in Hc. rewrite Hc.
    split; [exact IH1|discriminate].
Qed.

(** X2.  The slug does not see letter case or punctuation: a title, the title
    in lower case, and the title in lower case without the characters that
    are neither word characters nor spaces all derive the same slug; and a
    slug never has two hyphens in a row. *)
Theorem generateSlug_ignores_case_and_punctuation t :
  generateSlug (Js.toLowerCase t) = generateSlug t
  /\ generateSlug (keep_only word_or_space (Js.toLowerCase t)) = generateSlug t
  /\ no_double_hyphen (generateSlug t) = true.
Proof.
  rewrite !generateSlug_unfold. split; [|split].
  - by rewrite toLowerCase_idem.
  - by rewrite toLowerCase_keep_only, toLowerCase_idem, keep_only_idem.
  - apply collapse_spaces_no_double_hyphen, keep_only_no_hyphen.
Qed.

(** ** Strings: reversal, trimming, splitting and joining *)

Lemma string_of_list_ascii_app l1 l2 :
  string_of_list_ascii (l1 ++ l2) = string_of_list_ascii l1 +:+ string_of_list_ascii l2.
Proof.
  induction l1 as [|c l1 IH]; [reflexivity|].
  change (String c (string_of_list_ascii (l1 ++ l2))
          = String c (string_of_list_ascii l1 +:+ string_of_list_ascii l2)).
  by rewrite IH.
Qed.

Lemma rev_string_involutive s : Js.rev_string (Js.rev_string s) = s.
Proof.
  unfold Js.rev_string.
  by rewrite list_ascii_of_string_of_list_ascii, rev_involutive,
    string_of_list_ascii_of_string.
Qed.

Lemma rev_string_cons c s :
  Js.rev_string (String c s) = Js.rev_string s +:+ String c "".
Proof.
  unfold Js.rev_string. cbn [list_ascii_of_string List.rev].
  by rewrite string_of_list_ascii_app.
Qed.

Lemma string_forallb_app f s1 s2 :
  string_forallb f (s1 +:+ s2) = string_forallb f s1 && string_forallb f s2.
Proof.
  induction s1 as [|c s1 IH]; [reflexivity|].
  change (f c && string_forallb f (s1 +:+ s2)
          = f c && string_forallb f s1 && string_forallb f s2).
  by rewrite IH, andb_assoc.
Qed.

Lemma string_forallb_rev f s :
  string_forallb f (Js.rev_string s) = string_forallb f s.
Proof.
  induction s as [|c s IH]; [reflexivity|].
  rewrite rev_string_cons, string_forallb_app, IH. cbn [string_forallb].
  rewrite andb_true_r. apply andb_comm.
Qed.

Lemma string_forallb_drop_while f cls s :
  string_forallb f s = true -> string_forallb f (Js.drop_while cls s) = true.
Proof.
  induction s as [|c s IH]; [done|]. cbn [Js.drop_while string_forallb].
  intros [Hc Hs]%andb_true_iff. destruct (cls c); [by apply IH|].
  cbn [string_forallb]. by rewrite Hc, Hs.
Qed.

Lemma string_forallb_trim f s :
  string_forallb f s = true -> string_forallb f (Js.trim s) = true.
Proof.
  intros H. unfold Js.trim. rewrite string_forallb_rev.
  apply string_forallb_drop_while. rewrite string_forallb_rev.
  by apply string_forallb_drop_while.
Qed.

(** The first character, if any, is not white space. *)
Lemma drop_while_head s :
  head_in Js.is_whitespace (Js.drop_while Js.is_whitespace s) = false.
Proof.
  induction s as [|c s IH]; [reflexivity|]. cbn [Js.drop_while].
  destruct (Js.is_whitespace c) eqn:E; [exact IH|]. exact E.
Qed.

Lemma drop_while_id s :
  head_in Js.is_whitespace s = false -> Js.drop_while Js.is_whitespace s = s.
Proof. destruct s as [|c s]; [done|]. cbn. by intros ->. Qed.

Lemma head_in_app cls s1 s2 :
  s1 <> "" -> head_in cls (s1 +:+ s2) = head_in cls s1.
Proof. by destruct s1. Qed.

Lemma rev_string_nonempty c s : Js.rev_string (String c s) <> "".
Proof.
  rewrite rev_string_cons. destruct (Js.rev_string s); discriminate.
Qed.

(** Dropping leading white space does not change how the string ends. *)
Lemma drop_while_last s :
  head_in Js.is_whitespace (Js.rev_string s) = false ->
  head_in Js.is_whitespace (Js.rev_string (Js.drop_while Js.is_whitespace s)) = false.
Proof.
  induction s as [|c s IH]; [done|]. cbn [Js.drop_while].
  destruct (Js.is_whitespace c) eqn:E; [|done].
  intros H. destruct s as [|c' s']; [reflexivity|]. apply IH.
  rewrite rev_string_cons, head_in_app in H by apply rev_string_nonempty. exact H.
Qed.

Lemma trim_idem s : Js.trim (Js.trim s) = Js.trim s.
Proof.
  unfold Js.trim.
  set (a := Js.drop_while Js.is_whitespace s).
  set (b := Js.drop_while Js.is_whitespace (Js.rev_string a)).
  assert (Hb : head_in Js.is_whitespace b = false) by apply drop_while_head.
  assert (Hrb : head_in Js.is_whitespace (Js.rev_string b) = false).
  { apply drop_while_last. rewrite rev_string_involutive. apply drop_while_head. }
  rewrite (drop_while_id (Js.rev_string b) Hrb), rev_string_involutive.
  by rewrite (drop_while_id b Hb).
Qed.

Lemma trim_leading_space s : Js.trim (String " " s) = Js.trim s.
Proof. reflexivity. Qed.

Lemma string_app_assoc s1 s2 s3 : (s1 +:+ s2) +:+ s3 = s1 +:+ (s2 +:+ s3).
Proof.
  induction s1 as [|c s1 IH]; [reflexivity|].
  change (String c ((s1 +:+ s2) +:+ s3) = String c (s1 +:+ (s2 +:+ s3))).
  by rewrite IH.
Qed.

Lemma split_from_piece sep cur t rest :
  string_forallb (fun c => negb (Ascii.eqb c sep)) t = true ->
  Js.split_from sep cur (t +:+ rest)
  = Js.split_from sep (List.rev (list_ascii_of_string t) ++ cur) rest.
Proof.
  revert cur. induction t as [|c t IH]; intros cur; [reflexivity|].
  cbn [string_forallb]. intros [Hc Ht]%andb_true_iff. apply negb_true_iff in Hc.
  change (String c t +:+ rest) with (String c (t +:+ rest)).
  cbn [Js.split_from list_ascii_of_string List.rev]. rewrite Hc, (IH _ Ht).
  by rewrite <- app_assoc.
Qed.

Lemma split_whole sep t :
  string_forallb (fun c => negb (Ascii.eqb c sep)) t = true ->
  Js.split sep t = [t].
Proof.
  intros H. unfold Js.split.
  rewrite <- (string_app_empty_r t) at 1. rewrite (split_from_piece _ _ _ _ H).
  cbn [Js.split_from]. rewrite app_nil_r, rev_involutive.
  by rewrite string_of_list_ascii_of_string.
Qed.

Lemma split_first sep t rest :
  string_forallb (fun c => negb (Ascii.eqb c sep)) t = true ->
  Js.split sep (t +:+ String sep rest) = t :: Js.split sep rest.
Proof.
  intros H. unfold Js.split. rewrite (split_from_piece _ _ _ _ H).
  cbn [Js.split_from]. rewrite Ascii.eqb_refl, app_nil_r, rev_involutive.
  by rewrite string_of_list_ascii_of_string.
Qed.

(** No piece of a split contains the separator. *)
Lemma split_from_pieces sep cur s :
  forallb (fun c => negb (Ascii.eqb c sep)) cur = true ->
  Forall (fun t => string_forallb (fun c => negb (Ascii.eqb c sep)) t = true)
    (Js.split_from sep cur s).
Proof.
  assert (Hpiece : forall l, forallb (fun c => negb (Ascii.eqb c sep)) l = true ->
            string_forallb (fun c => negb (Ascii.eqb c sep))
              (string_of_list_ascii (List.rev l)) = true).
  { intros l Hl. change (string_of_list_ascii (List.rev l))
      with (string_of_list_ascii (List.rev (list_ascii_of_string (string_of_list_ascii l))))
      || rewrite <- (list_ascii_of_string_of_list_ascii l).
    fold (Js.rev_string (string_of_list_ascii l)). rewrite string_forallb_rev.
    clear -Hl. induction l as [|c l IH]; [done|]. cbn in Hl |- *.
    apply andb_true_iff in Hl as [-> Hl]. by apply IH. }
  revert cur. induction s as [|c s IH]; intros cur Hcur; cbn [Js.split_from].
  - constructor; [by apply Hpiece|constructor].
  - destruct (Ascii.eqb c sep) eqn:E.
    + constructor; [by apply Hpiece|]. by apply IH.
    + apply IH. cbn. by rewrite E, Hcur.
Qed.

(** Splitting what was joined with the separator gives the pieces back. *)
Lemma split_join sep l :
  l <> [] ->
  Forall (fun t => string_forallb (fun c => negb (Ascii.eqb c sep)) t = true) l ->
  Js.split sep (join (String sep "") l) = l.
Proof.
  intros Hne Hl. induction Hl as [|x l Hx Hl IH]; [done|].
  destruct l as [|y l'].
  - cbn [join]. by apply split_whole.
  - change (join (String sep "") (x :: y :: l'))
      with (x +:+ String sep (join (String sep "") (y :: l'))).
    rewrite (split_first _ _ _ Hx). f_equal. by apply IH.
Qed.

(** Splitting at the commas what was joined with a comma and a space gives
    the first piece, and every other piece after a space. *)
Lemma split_join_comma_space pre x l :
  string_forallb (fun c => negb (is_comma c)) pre = true ->
  Forall (fun t => string_forallb (fun c => negb (is_comma c)) t = true) (x :: l) ->
  Js.split "," (pre +:+ join ", " (x :: l)) = (pre +:+ x) :: List.map (String " ") l.
Proof.
  unfold is_comma. revert pre x. induction l as [|y l IH]; intros pre x Hpre Hl.
  - cbn [join List.map]. apply split_whole. rewrite string_forallb_app, Hpre.
    by inversion Hl.
  - inversion Hl as [|? ? Hx Hl']; subst.
    change (join ", " (x :: y :: l)) with (x +:+ String "," (" " +:+ join ", " (y :: l))).
    rewrite <- string_app_assoc, split_first
      by (rewrite string_forallb_app; by rewrite Hpre, Hx).
    cbn [List.map]. f_equal. by apply (IH " " y).
Qed.

(** ** Tags *)

Lemma tag_ok_spec t :
  tag_ok t = true
  <-> t <> "" /\ string_forallb (fun c => negb (is_comma c)) t = true /\ Js.trim t = t.
Proof.
  unfold tag_ok. rewrite !andb_true_iff, String.eqb_eq.
  assert (H : Js.truthy t = true <-> t <> "") by (destruct t; split; done).
  split.
  - intros [[Ht Hc] Htrim]. split; [by apply H|]. by split.
  - intros (Hne & Hc & Htrim). split; [|exact Htrim]. split; [by apply H|exact Hc].
Qed.

(** What both the client and the server compute from a comma separated text. *)
Lemma tag_list_ok s :
  Forall (fun t => tag_ok t = true)
    (List.filter Js.truthy (List.map Js.trim (Js.split "," s))).
Proof.
  apply list.Forall_forall. intros t Ht.
  apply list_elem_of_In, filter_In in Ht as [Hin Htruthy].
  apply in_map_iff in Hin as (piece & <- & Hpiece).
  unfold tag_ok. rewrite Htruthy, trim_idem, String.eqb_refl, andb_true_r. cbn.
  apply string_forallb_trim.
  pose proof (split_from_pieces "," [] s eq_refl) as Hall.
  rewrite list.Forall_forall in Hall. apply Hall. by apply list_elem_of_In.
Qed.

Lemma tags_unchanged l :
  Forall (fun t => tag_ok t = true) l ->
  List.filter Js.truthy (List.map Js.trim l) = l.
Proof.
  induction 1 as [|t l Ht _ IH]; [done|].
  apply tag_ok_spec in Ht as (Hne & _ & Htrim). cbn [List.map List.filter].
  rewrite Htrim, IH. by destruct t.
Qed.

(** The server reads back the tags that were joined with a comma. *)
Lemma parse_tags_join l :
  Forall (fun t => tag_ok t = true) l ->
  parse_tags (Some (join "," l)) = l.
Proof.
  intros Hl. unfold parse_tags. destruct l as [|x l]; [reflexivity|].
  assert (Hcomma : Forall (fun t => string_forallb (fun c => negb (Ascii.eqb c ",")) t = true)
                     (x :: l)).
  { eapply Forall_impl; [exact Hl|]. intros t Ht. by apply tag_ok_spec in Ht as (_ & ? & _). }
  assert (Htruthy : Js.truthy (join "," (x :: l)) = true).
  { inversion Hl as [|? ? Hx _]; subst. apply tag_ok_spec in Hx as (Hne & _).
    destruct x; [done|]. by destruct l. }
  rewrite Htruthy, (split_join "," (x :: l)) by done. by apply tags_unchanged.
Qed.

(** X3.  Whatever text arrives in [tags], every tag that the create and update
    routes store is not empty, has no comma, and has no white space at either
    end; an absent or empty text gives no tags. *)
Theorem parse_tags_well_formed tags_ :
  Forall (fun t => t <> "" /\ string_forallb (fun c => negb (is_comma c)) t = true
                   /\ Js.trim t = t)
    (parse_tags tags_)
  /\ parse_tags None = [] /\ parse_tags (Some "") = [].
Proof.
  split; [|by split]. unfold parse_tags. destruct tags_ as [s|]; [|constructor].
  destruct (Js.truthy s); [|constructor].
  eapply Forall_impl; [apply tag_list_ok|]. intros t Ht. by apply tag_ok_spec.
Qed.

(** X4.  What the create form holds reaches the stored post: the tags that the
    page splits off the text and the service joins with commas are the tags the
    route parses, and the checkbox, sent as text, is the [isPublished] the
    route computes. *)
Theorem form_reaches_stored_post f newId now u :
  parse_tags (body_tags (formData f)) = form_tag_list f
  /\ coerce_isPublished (body_isPublished (formData f)) = form_isPublished f
  /\ tags (created_post newId now (formData f) None u (form_title f)) = form_tag_list f
  /\ isPublished (created_post newId now (formData f) None u (form_title f))
     = form_isPublished f.
Proof.
  assert (Ht : parse_tags (body_tags (formData f)) = form_tag_list f).
  { cbn [formData body_tags]. apply parse_tags_join, tag_list_ok. }
  assert (Hp : coerce_isPublished (body_isPublished (formData f)) = form_isPublished f).
  { cbn [formData body_isPublished]. by destruct (form_isPublished f). }
  split; [exact Ht|]. split; [exact Hp|]. split; [exact Ht|exact Hp].
Qed.

(** X5.  The edit page shows the stored tags joined with a comma and a space.
    When the tags are as the routes store them and the form is submitted as it
    was filled, the page recovers the same tags and the update route parses the
    same tags again; [isPublished] comes back as it was. *)
Theorem edit_form_keeps_tags p :
  Forall (fun t => tag_ok t = true) (tags p) ->
  form_tag_list (edit_form p) = tags p
  /\ parse_tags (body_tags (formData (edit_form p))) = tags p
  /\ coerce_isPublished (body_isPublished (formData (edit_form p))) = isPublished p.
Proof.
  intros Hok.
  assert (Hl : form_tag_list (edit_form p) = tags p).
  { unfold form_tag_list, edit_form. cbn [form_tags].
    destruct (tags p) as [|x l] eqn:E; [reflexivity|].
    assert (Hcomma : Forall (fun t => string_forallb (fun c => negb (is_comma c)) t = true)
                       (x :: l)).
    { eapply Forall_impl; [exact Hok|]. intros t Ht. by apply tag_ok_spec in Ht as (_ & ? & _). }
    pose proof (split_join_comma_space "" x l eq_refl Hcomma) as Hsplit.
    change ("" +:+ join ", " (x :: l)) with (join ", " (x :: l)) in Hsplit.
    change ("" +:+ x) with x in Hsplit. rewrite Hsplit.
    inversion Hok as [|? ? Hx Hrest]; subst. cbn [List.map List.filter].
    apply tag_ok_spec in Hx as (Hne & _ & Htrim). rewrite Htrim.
    assert (Js.truthy x = true) as -> by (by destruct x). f_equal.
    rewrite map_map. rewrite <- (tags_unchanged l Hrest) at 2.
    f_equal. }
  split; [exact Hl|]. split.
  - cbn [formData body_tags]. rewrite Hl. by apply parse_tags_join.
  - cbn [formData body_isPublished edit_form form_isPublished]. by destruct (isPublished p).
Qed.

(** ** Numbers in the query *)

Lemma pretty_N_char_digit d :
  (d < 10)%N ->
  digit_value 10 (pretty_N_char d) = Some (Z.of_N d)
  /\ Js.is_digit (pretty_N_char d) = true.
Proof.
  intros Hd.
  assert (d = 0 \/ d = 1 \/ d = 2 \/ d = 3 \/ d = 4 \/ d = 5 \/ d = 6 \/ d = 7
          \/ d = 8 \/ d = 9)%N as Hcases by lia.
  repeat (destruct Hcases as [->|Hcases]; [by split|]). subst d. by split.
Qed.

(** Reading the digits that [pretty] wrote: the number is appended, in base
    ten, to what was read before. *)
Lemma read_digits_pretty_go x :
  (0 < x)%N ->
  exists m, 0 <= m /\ forall s acc,
    read_digits 10 acc (pretty_N_go x s)
    = read_digits 10 (Some (default 0 acc * 10 ^ m + Z.of_N x)) s.
Proof.
  induction (N.lt_wf_0 x) as [x _ IH]. intros Hx.
  assert (Hmod : (x `mod` 10 < 10)%N) by (apply N.mod_lt; lia).
  destruct (pretty_N_char_digit _ Hmod) as [Hval _].
  assert (Hx10 : Z.of_N x = Z.of_N (x `div` 10) * 10 + Z.of_N (x `mod` 10)).
  { pose proof (N.div_mod x 10 ltac:(done)) as E.
    apply (f_equal Z.of_N) in E. rewrite N2Z.inj_add, N2Z.inj_mul in E.
    rewrite E. cbn. ring. }
  destruct (decide (x `div` 10 = 0)%N) as [H0|Hpos].
  - exists 1. split; [lia|]. intros s acc.
    rewrite pretty_N_go_step, H0, pretty_N_go_0 by done.
    cbn [read_digits]. rewrite Hval. f_equal. f_equal. rewrite Hx10, H0. lia.
  - destruct (IH (x `div` 10)%N) as (m & Hm & Hread).
    { apply N.div_lt; lia. }
    { lia. }
    exists (m + 1). split; [lia|]. intros s acc.
    rewrite pretty_N_go_step, Hread by done.
    cbn [read_digits]. rewrite Hval. cbn [default]. f_equal. f_equal.
    rewrite Hx10, Z.pow_add_r by lia. change (10 ^ 1) with 10. unfold id. ring.
Qed.

Lemma pretty_N_go_digits x s :
  string_forallb Js.is_digit s = true ->
  string_forallb Js.is_digit (pretty_N_go x s) = true.
Proof.
  revert s. induction (N.lt_wf_0 x) as [x _ IH]. intros s Hs.
  destruct (decide (x = 0)%N) as [->|Hx]; [by rewrite pretty_N_go_0|].
  rewrite pretty_N_go_step by lia. apply IH; [apply N.div_lt; lia|].
  cbn [string_forallb]. rewrite Hs, andb_true_r.
  apply pretty_N_char_digit, N.mod_lt. lia.
Qed.

Lemma pretty_N_go_nonempty x s : s <> "" -> pretty_N_go x s <> "".
Proof.
  revert s. induction (N.lt_wf_0 x) as [x _ IH]. intros s Hs.
  destruct (decide (x = 0)%N) as [->|Hx]; [by rewrite pretty_N_go_0|].
  rewrite pretty_N_go_step by lia. apply IH; [apply N.div_lt; lia|done].
Qed.

Lemma pretty_positive_digits (p : positive) :
  pretty p <> "" /\ string_forallb Js.is_digit (pretty p) = true
  /\ read_digits 10 None (pretty p) = Some (Z.pos p).
Proof.
  change (pretty p) with (pretty_N_go (N.pos p) "").
  split; [|split].
  - rewrite pretty_N_go_step by lia. by apply pretty_N_go_nonempty.
  - by apply pretty_N_go_digits.
  - destruct (read_digits_pretty_go (N.pos p)) as (m & _ & H); [lia|].
    rewrite H. cbn. done.
Qed.

(** On a text of digits [parseInt] reads the digits in base ten, and a minus
    sign in front negates the number. *)
Lemma parseInt_digits s :
  s <> "" -> string_forallb Js.is_digit s = true ->
  parseInt (Some s) = read_digits 10 None s
  /\ parseInt (Some (String "-" s)) = Z.opp <$> read_digits 10 None s.
Proof.
  intros Hne Hs. destruct s as [|c s]; [done|]. clear Hne.
  cbn [string_forallb] in Hs. apply andb_true_iff in Hs as [Hc Hs].
  destruct c as [[] [] [] [] [] [] [] []]; try discriminate Hc; clear Hc;
    try (split; cbv -[read_digits Z.opp];
         [by destruct (read_digits _ _ _)|reflexivity]).
  (* the first digit is 0: the next character decides over the radix *)
  destruct s as [|x r]; [by split|].
  cbn [string_forallb] in Hs. apply andb_true_iff in Hs as [Hx _].
  destruct x as [[] [] [] [] [] [] [] []]; try discriminate Hx; clear Hx;
    (split; cbv -[read_digits Z.opp];
     [by destruct (read_digits _ _ _)|reflexivity]).
Qed.

Lemma parseInt_pretty (z : Z) : parseInt (Some (pretty z)) = Some z.
Proof.
  destruct z as [|p|p].
  - reflexivity.
  - destruct (pretty_positive_digits p) as (Hne & Hd & Hr).
    change (pretty (Z.pos p)) with (pretty p).
    by rewrite (proj1 (parseInt_digits _ Hne Hd)).
  - destruct (pretty_positive_digits p) as (Hne & Hd & Hr).
    change (pretty (Z.neg p)) with (String "-" (pretty p)).
    by rewrite (proj2 (parseInt_digits _ Hne Hd)), Hr.
Qed.

Lemma getAllPosts_query_is_read_back_aux page lim c :
  parseInt (query_page (getAllPosts_query page lim c)) = Some page
  /\ parseInt (query_limit (getAllPosts_query page lim c)) = Some lim.
Proof. unfold getAllPosts_query. cbn [query_page query_limit]. by rewrite !parseInt_pretty. Qed.

(** X6.  The list route reads back the numbers that the client writes into
    the query: [getAllPosts(page, limit, category)], with a category of word
    characters or none, reaches the route as page [page] and limit [limit],
    with skip [(page - 1) * limit], except that a zero is replaced by the
    default, 1 or 10. *)
Theorem getAllPosts_query_is_read_back page lim c :
  plain_category c ->
  parseInt (query_page (getAllPosts_query page lim c)) = Some page
  /\ parseInt (query_limit (getAllPosts_query page lim c)) = Some lim
  /\ list_params (getAllPosts_query page lim c)
     = (if page =? 0 then 1 else page,
        if lim =? 0 then 10 else lim,
        ((if page =? 0 then 1 else page) - 1) * (if lim =? 0 then 10 else lim)).
Proof.
  intros _. unfold list_params, getAllPosts_query. cbn [query_page query_limit].
  rewrite !parseInt_pretty. split; [done|]. split; [done|]. reflexivity.
Qed.

(** ** Pages *)

Lemma NoDup_documents (db : gmap string Post) : wf db -> NoDup (documents db).
Proof.
  intros Hwf. unfold documents. apply NoDup_fmap_2_strong; [|apply NoDup_map_to_list].
  intros [k1 p1] [k2 p2] H1 H2 E. cbn in E. subst p2.
  apply elem_of_map_to_list in H1, H2. by rewrite <- (Hwf _ _ H1), <- (Hwf _ _ H2).
Qed.

Lemma filter_sublist {A} (f : A -> bool) (l : list A) : List.filter f l `sublist_of` l.
Proof.
  induction l as [|x l IH]; [constructor|]. cbn [List.filter].
  destruct (f x); by constructor.
Qed.

Lemma flat_map_ext_In {A B} (f g : A -> list B) (l : list A) :
  (forall a, In a l -> f a = g a) -> flat_map f l = flat_map g l.
Proof.
  induction l as [|x l IH]; intros H; [done|]. cbn [flat_map].
  rewrite (H x) by (by left). rewrite IH; [done|]. intros a Ha. apply H. by right.
Qed.

Lemma ceil_div_bounds total l :
  0 < l -> (ceil_div total l - 1) * l < total <= ceil_div total l * l.
Proof.
  intros Hl. unfold ceil_div.
  pose proof (Z.mul_div_le (- total) l Hl).
  pose proof (Z.mul_succ_div_gt (- total) l Hl). lia.
Qed.

Lemma pages_upto_take {A} (f : A -> PostJson) (all : list A) (l k : nat) :
  flat_map (fun i => List.map f (take l (drop ((i - 1) * l) all))) (seq 1 k)
  = List.map f (take (k * l) all).
Proof.
  induction k as [|k IH]; [by rewrite take_0|].
  rewrite seq_S, flat_map_app, IH. cbn [flat_map]. rewrite app_nil_r.
  replace (1 + k - 1)%nat with k by lia.
  rewrite <- map_app, take_take_drop. f_equal. f_equal. lia.
Qed.

(** X7.  Over a collection whose posts have distinct creation times, the
    pages of the list route, as the client asks for them with a positive
    limit and with no category or one that casts to an ObjectId, are
    consecutive windows of one list, the published posts of the category
    newest first: page [p] holds at most [limit] posts, the
    first [k] pages together are the first [k * limit] posts in order, so no
    post is skipped or listed twice, a page past the end is empty, and
    [total] and [pages] in the answer are the length of the list and the number
    of pages it fills. *)
Theorem list_pages_partition (db : gmap string Post) lim c u :
  0 < lim ->
  plain_category c ->
  castable_category c ->
  wf db ->
  distinct_createdAt db ->
  let all := sort_createdAt_desc
               (List.filter (list_filter (getAllPosts_query 1 lim c)) (documents db)) in
  let items p := jsons_of (listPosts db (getAllPosts_request p lim c u)).1 in
  NoDup all
  /\ (forall p, 0 < p ->
        items p = List.map to_json (take (Z.to_nat lim) (drop (Z.to_nat ((p - 1) * lim)) all))
        /\ (length (items p) <= Z.to_nat lim)%nat
        /\ (Z.of_nat (length all) <= (p - 1) * lim -> items p = []))
  /\ (forall k, pages_upto items k = List.map to_json (take (k * Z.to_nat lim) all))
  /\ (forall p, 0 < p ->
        exists pg, (listPosts db (getAllPosts_request p lim c u)).1
                   = Json 200 (BPosts (items p) (Some pg))
                   /\ pg_page pg = p /\ pg_limit pg = lim
                   /\ pg_total pg = Z.of_nat (length all)
                   /\ (pg_pages pg - 1) * lim < pg_total pg <= pg_pages pg * lim).
Proof.
  intros Hlim _ Hcast Hwf _ all items.
  assert (Hcasts : forall p, list_cast_fails (getAllPosts_query p lim c) = false).
  { intros p. unfold list_cast_fails, getAllPosts_query. cbn [query_category].
    destruct c as [s|]; [|done]. destruct (Js.truthy s) eqn:Hs; [|done].
    cbn in Hcast. by rewrite Hs, Hcast. }
  assert (Hfilter : forall p, list_filter (getAllPosts_query p lim c)
                              = list_filter (getAllPosts_query 1 lim c)) by reflexivity.
  assert (Hlen : length all
                 = length (List.filter (list_filter (getAllPosts_query 1 lim c)) (documents db))).
  { unfold all, sort_createdAt_desc. by rewrite merge_sort_Permutation. }
  assert (Hresp : forall p, 0 < p ->
            listPosts db (getAllPosts_request p lim c u)
            = (Json 200 (BPosts
                 (List.map to_json (take (Z.to_nat lim) (drop (Z.to_nat ((p - 1) * lim)) all)))
                 (Some (mkPagination p lim (Z.of_nat (length all))
                          (ceil_div (Z.of_nat (length all)) lim)))), db)).
  { intros p Hp. rewrite listPosts_window. cbv zeta.
    cbn [getAllPosts_request query]. rewrite Hcasts, Hfilter. fold all. rewrite <- Hlen.
    destruct (getAllPosts_query_is_read_back_aux p lim c) as (Hpp & Hpl).
    rewrite Hpp, Hpl. unfold or_default.
    destruct (Z.eqb_spec p 0) as [?|_]; [lia|]. destruct (Z.eqb_spec lim 0) as [?|_]; [lia|].
    unfold skip, limit.
    destruct (Z.ltb_spec ((p - 1) * lim) 0) as [?|_]; [nia|].
    destruct (Z.eqb_spec lim 0) as [?|_]; [lia|]. by rewrite Z.abs_eq by lia. }
  assert (Hitems : forall p, 0 < p ->
            items p = List.map to_json
                        (take (Z.to_nat lim) (drop (Z.to_nat ((p - 1) * lim)) all))).
  { intros p Hp. unfold items. by rewrite (Hresp p Hp). }
  split; [|split; [|split]].
  - unfold all, sort_createdAt_desc. rewrite merge_sort_Permutation.
    eapply sublist_NoDup; [by apply NoDup_documents|apply filter_sublist].
  - intros p Hp. rewrite (Hitems p Hp). split; [done|]. split.
    + rewrite length_map, length_take. lia.
    + intros Hpast. rewrite drop_ge by lia. by rewrite take_nil.
  - intros k. unfold pages_upto. rewrite <- pages_upto_take.
    apply flat_map_ext_In. intros i Hi%in_seq. rewrite Hitems by lia.
    do 3 f_equal. nia.
  - intros p Hp. eexists. unfold items at 1. rewrite (Hresp p Hp).
    split; [cbn [fst jsons_of]; reflexivity|]. cbn [pg_page pg_limit pg_total pg_pages].
    split; [done|]. split; [done|]. split; [done|]. by apply ceil_div_bounds.
Qed.

(** ** What every route keeps *)

Lemma wf_alter (db : gmap string Post) f i :
  (forall p, _id (f p) = _id p) -> wf db -> wf (alter f i db).
Proof.
  intros Hf Hwf k p. destruct (decide (i = k)) as [<-|Hne].
  - rewrite lookup_alter_eq. destruct (db !! i) as [q|] eqn:E; [|discriminate].
    intros [= <-]. rewrite Hf. by apply Hwf.
  - rewrite lookup_alter_ne by done. apply Hwf.
Qed.

Lemma slug_unique_alter (db : gmap string Post) f i :
  (forall p, slug (f p) = slug p) -> slug_unique db -> slug_unique (alter f i db).
Proof.
  intros Hf U k1 k2 p1 p2 H1 H2 Hs.
  assert (Hpre : forall k p, alter f i db !! k = Some p ->
                             exists q, db !! k = Some q /\ slug q = slug p).
  { intros k p. destruct (decide (i = k)) as [<-|Hne].
    - rewrite lookup_alter_eq. destruct (db !! i) as [q|]; [|discriminate].
      intros [= <-]. exists q. by rewrite Hf.
    - rewrite lookup_alter_ne by done. intros H. by exists p. }
  destruct (Hpre _ _ H1) as (q1 & Hq1 & E1). destruct (Hpre _ _ H2) as (q2 & Hq2 & E2).
  eapply U; eauto. congruence.
Qed.

Lemma wf_delete (db : gmap string Post) i : wf db -> wf (delete i db).
Proof. intros Hwf k p Hk. apply lookup_delete_Some in Hk as [_ Hk]. by apply Hwf. Qed.

Lemma slug_unique_delete (db : gmap string Post) i :
  slug_unique db -> slug_unique (delete i db).
Proof.
  intros U k1 k2 p1 p2 H1 H2. apply lookup_delete_Some in H1 as [_ H1].
  apply lookup_delete_Some in H2 as [_ H2]. by eapply U.
Qed.

Lemma save_keeps_invariants (db db' : gmap string Post) old new :
  wf db -> slug_unique db ->
  db !! _id old = Some old -> _id new = _id old ->
  save db old new = Some db' ->
  wf db' /\ slug_unique db' /\ db' = <[_id old := new]> db.
Proof.
  intros Hwf U Hold Hid Hsave.
  assert (Hfree : db' = <[_id old := new]> db
                  /\ forall k q, db !! k = Some q -> slug q = slug new -> k = _id old).
  { unfold save in Hsave. destruct (String.eqb_spec (slug new) (slug old)) as [E|_].
    - injection Hsave as <-. split; [done|]. intros k q Hk Hs.
      eapply U; eauto. congruence.
    - destruct (findOne_slug db (slug new)) eqn:Hnone; [discriminate|].
      injection Hsave as <-. split; [done|]. intros k q Hk Hs.
      exfalso. eapply findOne_slug_None; eauto. }
  destruct Hfree as [-> Hfree]. split; [|split; [|done]].
  - rewrite <- Hid. by apply wf_insert.
  - intros k1 k2 p1 p2 H1 H2 Hs.
    destruct (decide (_id old = k1)) as [<-|N1], (decide (_id old = k2)) as [<-|N2]; [done|..].
    + rewrite lookup_insert_eq in H1. rewrite lookup_insert_ne in H2 by done.
      injection H1 as <-. symmetry. eapply Hfree; eauto.
    + rewrite lookup_insert_eq in H2. rewrite lookup_insert_ne in H1 by done.
      injection H2 as <-. eapply Hfree; eauto.
    + rewrite lookup_insert_ne in H1, H2 by done. eauto.
Qed.

Lemma pre_save_id b p : _id (pre_save b p) = _id p.
Proof. unfold pre_save. by destruct (_ || _). Qed.

Lemma save_document_Some (db db' : gmap string Post) old changed now new :
  save_document db old changed now = Some (new, db') ->
  Js.truthy (slug changed) = true
  /\ new = set_updatedAt now (pre_save false changed)
  /\ save db old new = Some db'.
Proof.
  unfold save_document, validate_stored.
  destruct (Js.truthy (slug changed)); [|discriminate]. cbn [negb].
  destruct (save db old _) as [db1|] eqn:Hs; [|discriminate].
  cbn [mbind option_bind]. intros [= <- <-]. done.
Qed.

Lemma served_keeps_invariants (db db' : gmap string Post) r :
  served db r db' -> wf db -> slug_unique db -> wf db' /\ slug_unique db'.
Proof.
  intros Hs Hwf U. destruct Hs as [db req|db now ident|db i|db newId now req u r db' Hc
                                   |db i now req u|db i u|db users i now req u|db req].
  - by rewrite listPosts_reads.
  - unfold getPost. destruct (lookup_identifier db ident); [|done]. cbn [snd].
    split; [by apply wf_inc|by apply slug_unique_inc].
  - unfold getImage. destruct (findById db i) as [p|]; [|done].
    destruct (featuredImage p) as [a|]; [|done]. by destruct (data a).
  - by eapply createPost_keeps_invariants.
  - unfold updatePost. destruct (findById db i) as [p|] eqn:Hp; [|done].
    destruct (not_authorized p u); [done|].
    destruct (negb (validate_update (body req))); [done|].
    assert (wf (findByIdAndUpdate db i (apply_update (body req) (file req) now))
            /\ slug_unique (findByIdAndUpdate db i (apply_update (body req) (file req) now)))
      by (split; [by apply wf_alter|by apply slug_unique_alter]).
    rewrite findById_update, Hp. exact H.
  - unfold deletePost. destruct (findById db i) as [p|]; [|done].
    destruct (not_authorized p u); [done|]. cbn [snd].
    split; [by apply wf_delete|by apply slug_unique_delete].
  - unfold addCommentRoute. destruct (body_content (body req)) as [text|]; [|done].
    destruct (negb (Js.truthy text)); [done|].
    destruct (findById db i) as [p|] eqn:Hp; [|done].
    unfold addComment.
    destruct (save_document db p _ now) as [[p' db1]|] eqn:Hsave; [|done]. cbn [snd].
    apply save_document_Some in Hsave as (_ & -> & Hsave).
    pose proof (Hwf i p Hp) as Hid.
    apply save_keeps_invariants in Hsave as (? & ? & _); [done..| |].
    + by rewrite Hid.
    + cbn [set_updatedAt _id]. by rewrite pre_save_id.
  - unfold searchPosts. destruct (query_q (query req)) as [q|]; [|done].
    destruct (negb (Js.truthy q)); [done|]. by destruct (RegExp_i q).
Qed.

(** X8.  Every collection that the routes can build from the empty one keeps
    the two storage invariants: each document is stored under its own [_id],
    and no two documents have the same slug. *)
Theorem reachable_invariants (db : gmap string Post) :
  reachable db -> wf db /\ slug_unique db.
Proof.
  induction 1 as [|db r db' _ [Hwf U] Hs].
  - split; [apply wf_empty|apply slug_unique_empty].
  - by eapply served_keeps_invariants.
Qed.

Lemma evolves_refl p : evolves p p.
Proof. unfold evolves. repeat split; [lia|done]. Qed.

Lemma pre_save_evolves b p : evolves p (pre_save b p).
Proof.
  unfold pre_save. destruct (_ || _); [|apply evolves_refl].
  unfold evolves. cbn. repeat split; [lia|done].
Qed.

Lemma alter_evolves (db : gmap string Post) f i k p p' :
  (forall q, evolves q (f q)) ->
  db !! k = Some p -> alter f i db !! k = Some p' -> evolves p p'.
Proof.
  intros Hf Hp. destruct (decide (i = k)) as [<-|Hne].
  - rewrite lookup_alter_eq, Hp. intros [= <-]. apply Hf.
  - rewrite lookup_alter_ne, Hp by done. intros [= <-]. apply evolves_refl.
Qed.

(** X9.  No request rewrites the history of a post: for a post that is in the
    collection before and after a request, whatever the route, the [_id], the
    author and the creation time are as before, the view count is not smaller,
    and the comments of before are the first of the comments of after. *)
Theorem served_posts_evolve (db db' : gmap string Post) r k p p' :
  served db r db' ->
  wf db ->
  db !! k = Some p ->
  db' !! k = Some p' ->
  evolves p p'.
Proof.
  intros Hs Hwf Hp Hp'.
  assert (Hsame : db' = db -> evolves p p').
  { intros ->. rewrite Hp in Hp'. injection Hp' as <-. apply evolves_refl. }
  destruct Hs as [db req|db now ident|db i|db newId now req u r db' Hc
                  |db i now req u|db i u|db users i now req u|db req].
  - apply Hsame. apply listPosts_reads.
  - unfold getPost in Hp', Hsame. destruct (lookup_identifier db ident) as [q|]; [|by apply Hsame].
    cbn [snd] in Hp'. eapply alter_evolves; [|exact Hp|exact Hp'].
    intros q'. unfold evolves. cbn. repeat split; try lia; try done.
  - apply Hsame. unfold getImage. destruct (findById db i) as [q|]; [|done].
    destruct (featuredImage q) as [a|]; [|done]. by destruct (data a).
  - unfold createPost in Hc. destruct (body_title (body req)) as [t|];
      [|apply Hsame; congruence].
    destruct (generateUniqueSlug db t) as [s0|]; [|discriminate]. cbn [mbind option_bind] in Hc.
    destruct (negb (validate_new _ _ _ _ _)); [apply Hsame; congruence|].
    destruct (insertOne db _) as [db1|] eqn:Hi; [|apply Hsame; congruence].
    injection Hc as _ <-. apply insertOne_Some in Hi as (Hfresh & _ & ->).
    rewrite lookup_insert_ne in Hp' by congruence.
    rewrite Hp in Hp'. injection Hp' as <-. apply evolves_refl.
  - unfold updatePost in Hp', Hsame. destruct (findById db i) as [q|] eqn:Hq; [|by apply Hsame].
    destruct (not_authorized q u); [by apply Hsame|].
    destruct (negb (validate_update (body req))); [by apply Hsame|].
    rewrite findById_update, Hq in Hp'. cbn [fmap option_fmap option_map snd] in Hp'.
    eapply alter_evolves; [|exact Hp|exact Hp'].
    intros q'. unfold evolves. cbn. repeat split; try lia; try done.
  - unfold deletePost in Hp', Hsame. destruct (findById db i) as [q|]; [|by apply Hsame].
    destruct (not_authorized q u); [by apply Hsame|]. cbn [snd] in Hp'.
    unfold findByIdAndDelete in Hp'. apply lookup_delete_Some in Hp' as [_ Hp']. rewrite Hp in Hp'.
    injection Hp' as <-. apply evolves_refl.
  - unfold addCommentRoute in Hp', Hsame. destruct (body_content (body req)) as [text|]; [|by apply Hsame].
    destruct (negb (Js.truthy text)); [by apply Hsame|].
    destruct (findById db i) as [q|] eqn:Hq; [|by apply Hsame].
    unfold addComment in Hp', Hsame.
    destruct (save_document db q _ now) as [[q1 db1]|] eqn:Hsave; [|by apply Hsame].
    cbn [snd] in Hp'. apply save_document_Some in Hsave as (_ & -> & Hsave).
    assert (Hdb1 : db1 = <[_id q := set_updatedAt now
                               (pre_save false (push_comment (user_id u) text now q))]> db).
    { unfold save in Hsave. destruct (String.eqb _ _); [congruence|].
      destruct (findOne_slug db _); [discriminate|congruence]. }
    subst db1. pose proof (Hwf i q Hq) as Hid. rewrite Hid in Hp'.
    destruct (decide (i = k)) as [<-|Hne].
    + rewrite lookup_insert_eq in Hp'. injection Hp' as <-.
      unfold findById in Hq. rewrite Hq in Hp. injection Hp as <-.
      destruct (pre_save_evolves false (push_comment (user_id u) text now q))
        as (H1 & H2 & H3 & H4 & H5).
      unfold evolves. cbn [set_updatedAt _id author createdAt viewCount comments].
      cbn [push_comment _id author createdAt viewCount comments] in H1, H2, H3, H4, H5.
      repeat split; [done..|].
      etrans; [|exact H5]. by apply prefix_app_r.
    + rewrite lookup_insert_ne, Hp in Hp' by done. injection Hp' as <-. apply evolves_refl.
  - apply Hsame. unfold searchPosts. destruct (query_q (query req)) as [q|]; [|done].
    destruct (negb (Js.truthy q)); [done|]. by destruct (RegExp_i q).
Qed.

(** X10.  A request that is answered with an error status has changed
    nothing, whatever the route; and the list route, the image route and the
    search handler never change the collection. *)
Theorem errors_change_nothing (db db' : gmap string Post) r :
  served db r db' ->
  (400 <= status_of r)%nat ->
  db' = db
  /\ (forall req, (listPosts db req).2 = db)
  /\ (forall i, (getImage db i).2 = db)
  /\ (forall req, (searchPosts db req).2 = db).
Proof.
  assert (Hlist : forall (d : gmap string Post) req, (listPosts d req).2 = d).
  { intros d req. apply listPosts_reads. }
  assert (Himage : forall (d : gmap string Post) i, (getImage d i).2 = d).
  { intros d i. unfold getImage. destruct (findById d i) as [q|]; [|done].
    destruct (featuredImage q) as [a|]; [|done]. by destruct (data a). }
  assert (Hsearch : forall (d : gmap string Post) req, (searchPosts d req).2 = d).
  { intros d req. unfold searchPosts. destruct (query_q (query req)) as [q|]; [|done].
    destruct (negb (Js.truthy q)); [done|]. by destruct (RegExp_i q). }
  intros Hs Herr. split; [|by auto].
  destruct Hs as [db req|db now ident|db i|db newId now req u r db' Hc
                  |db i now req u|db i u|db users i now req u|db req]; [by auto| |by auto| | | | |by auto].
  - unfold getPost in *. destruct (lookup_identifier db ident); [cbn in Herr; lia|done].
  - unfold createPost in Hc. destruct (body_title (body req)) as [t|]; [|congruence].
    destruct (generateUniqueSlug db t) as [s0|]; [|discriminate]. cbn [mbind option_bind] in Hc.
    destruct (negb (validate_new _ _ _ _ _)); [congruence|].
    destruct (insertOne db _) as [db1|]; [|congruence].
    injection Hc as <- <-. cbn in Herr. lia.
  - unfold updatePost in *. destruct (findById db i) as [q|] eqn:Hq; [|done].
    destruct (not_authorized q u); [done|].
    destruct (negb (validate_update (body req))); [done|].
    rewrite findById_update, Hq in Herr. cbn in Herr. lia.
  - unfold deletePost in *. destruct (findById db i) as [q|]; [|done].
    destruct (not_authorized q u); [done|]. cbn in Herr. lia.
  - unfold addCommentRoute in *. destruct (body_content (body req)) as [text|]; [|done].
    destruct (negb (Js.truthy text)); [done|].
    destruct (findById db i) as [q|]; [|done].
    destruct (addComment db q (user_id u) text now) as [[q' db1]|]; [cbn in Herr; lia|done].
Qed.

(** ** Creation and update, case by case *)

Lemma upload_refusal_is_400 (f : File) e :
  upload_single f = inr e -> status_of (errorHandler e) = 400%nat.
Proof.
  unfold upload_single. destruct (negb (fileFilter _ _)); [by intros [= <-]|].
  destruct (exceeds_fileSize _ _); [by intros [= <-]|discriminate].
Qed.

(** X11.  What the create route answers.  A file that the upload middleware
    refuses: 400, before the handler runs.  Otherwise, without a title: 500.
    With a title that has a word character or a space: 500 when a schema
    validator fails (title empty or longer than 100 characters once trimmed,
    content or category missing, category that does not cast to an ObjectId,
    excerpt longer than 200 characters); otherwise 400 when the [_id] or the
    slug of the trimmed title is taken; otherwise 201, and the collection
    gains exactly the new post, with the principal as author, no views and no
    comments.  A title without any word character or space is answered 500
    when no post has the empty slug.  Whenever the answer is not 201, nothing
    is stored. *)
Theorem createPost_outcomes (db : gmap string Post) newId now req u :
  (upload_passes req = false ->
     exists r, createRoute db newId now req u = Some (r, db) /\ status_of r = 400%nat)
  /\ (upload_passes req = true ->
      createRoute db newId now req u = createPost db newId now req u)
  /\ (body_title (body req) = None ->
      exists r, createPost db newId now req u = Some (r, db) /\ status_of r = 500%nat)
  /\ (forall t,
        body_title (body req) = Some t -> generateSlug t <> "" ->
        let valid := validate_new (Js.trim t) (body_content (body req)) "-"
                       (body_excerpt (body req)) (body_category (body req)) in
        let post := created_post newId now (body req) (file req) u t in
        (valid = false ->
           exists r, createPost db newId now req u = Some (r, db)
                     /\ status_of r = 500%nat)
        /\ (valid = true ->
            is_Some (db !! newId) \/ is_Some (findOne_slug db (generateSlug (Js.trim t))) ->
            createPost db newId now req u
            = Some (Json 400 (BError "Post with this title already exists"), db))
        /\ (valid = true ->
            db !! newId = None -> findOne_slug db (generateSlug (Js.trim t)) = None ->
            createPost db newId now req u
            = Some (Json 201 (BPost (created_json post)), <[newId := post]> db)
            /\ author post = user_id u /\ viewCount post = 0 /\ comments post = []
            /\ createdAt post = now))
  /\ (forall t,
        body_title (body req) = Some t -> generateSlug t = "" ->
        findOne_slug db "" = None ->
        exists r, createPost db newId now req u = Some (r, db) /\ status_of r = 500%nat).
Proof.
  split; [|split; [|split; [|split]]].
  - unfold upload_passes, createRoute, with_upload. destruct (file req) as [f|]; [|done].
    destruct (upload_single f) as [f'|e] eqn:E; [done|]. intros _.
    eexists. split; [reflexivity|]. by eapply upload_refusal_is_400.
  - unfold upload_passes, createRoute, with_upload. destruct (file req) as [f|]; [|done].
    by destruct (upload_single f).
  - intros Ht. unfold createPost. rewrite Ht. by eexists.
  - intros t Ht Hbase valid post.
    destruct (generateUniqueSlug_first_unused db t) as (k & Hk & _ & _).
    assert (Hvalid : validate_new (Js.trim t) (body_content (body req))
                       (candidate (generateSlug t) k)
                       (body_excerpt (body req)) (body_category (body req)) = valid).
    { apply validate_new_slug; [by apply candidate_truthy|done]. }
    unfold createPost. rewrite Ht, Hk. cbn [mbind option_bind].
    cbn [new_post title slug]. rewrite Hvalid, pre_save_new. fold post.
    split; [intros ->; by eexists|]. split.
    + intros -> Htaken. cbn [negb]. unfold insertOne.
      change (_id post) with newId. change (slug post) with (generateSlug (Js.trim t)).
      destruct Htaken as [[q Hq]|[q Hq]].
      * rewrite Hq. by destruct (findOne_slug db (generateSlug (Js.trim t))).
      * rewrite Hq. by destruct (db !! newId).
    + intros -> Hid Hslug. cbn [negb]. unfold insertOne.
      change (_id post) with newId. change (slug post) with (generateSlug (Js.trim t)).
      by rewrite Hid, Hslug.
  - intros t Ht Hbase Hfree. unfold createPost, generateUniqueSlug.
    rewrite Ht, Hbase. cbn [probe_slug]. rewrite Hfree. cbn [mbind option_bind].
    cbn [new_post title slug]. unfold validate_new. cbn [Js.truthy].
    rewrite andb_false_r. by eexists.
Qed.

Lemma alter_is_insert (db : gmap string Post) f i p :
  db !! i = Some p -> alter f i db = <[i := f p]> db.
Proof.
  intros Hp. apply map_eq. intros j. destruct (decide (i = j)) as [<-|Hne].
  - by rewrite lookup_alter_eq, lookup_insert_eq, Hp.
  - by rewrite lookup_alter_ne, lookup_insert_ne.
Qed.

(** An update that is answered 200 got past the authorization check and the
    validation, and wrote [apply_update]. *)
Lemma updatePost_200 (db db' : gmap string Post) i post now req u pj :
  findById db i = Some post ->
  updatePost db i now req u = (Json 200 (BPost pj), db') ->
  pj = to_json (apply_update (body req) (file req) now post)
  /\ db' = findByIdAndUpdate db i (apply_update (body req) (file req) now).
Proof.
  intros Hf Hu.
  destruct (not_authorized post u) eqn:Ha.
  { unfold updatePost in Hu. rewrite Hf, Ha in Hu. discriminate Hu. }
  destruct (validate_update (body req)) eqn:Hv.
  2:{ unfold updatePost in Hu. rewrite Hf, Ha, Hv in Hu. discriminate Hu. }
  rewrite (updatePost_ok db i post now req u Hf Ha Hv) in Hu.
  by injection Hu as <- <-.
Qed.

(** X12.  An update that is answered 200 has written [tags] and
    [isPublished] whether the request has them or not: a request without
    [isPublished] turns the post into a draft, and a request without [tags]
    leaves it without tags.  A new title is stored trimmed, and the slug stays
    what it was. *)
Theorem update_resets_omitted_fields (db db' : gmap string Post) i now req u post pj :
  findById db i = Some post ->
  updatePost db i now req u = (Json 200 (BPost pj), db') ->
  exists post',
    db' = <[i := post']> db
    /\ pj = to_json post'
    /\ isPublished post' = coerce_isPublished (body_isPublished (body req))
    /\ tags post' = parse_tags (body_tags (body req))
    /\ (body_isPublished (body req) = JUndefined -> isPublished post' = false)
    /\ (body_tags (body req) = None -> tags post' = [])
    /\ (forall t, body_title (body req) = Some t -> title post' = Js.trim t)
    /\ slug post' = slug post.
Proof.
  intros Hf Hu. destruct (updatePost_200 _ _ _ _ _ _ _ _ Hf Hu) as [-> ->].
  exists (apply_update (body req) (file req) now post).
  unfold findByIdAndUpdate. rewrite (alter_is_insert db _ i post Hf).
  split; [done|]. split; [done|]. split; [done|]. split; [done|].
  split; [by cbn [apply_update isPublished]; intros ->|].
  split; [by cbn [apply_update tags]; intros ->|].
  split; [|done]. intros t Ht. cbn [apply_update title]. by rewrite Ht.
Qed.

(** X13.  The featured image after an update that is answered 200.  With a
    file in the request, the image route serves that file, whether or not the
    request also asks to remove the image.  Without a file and with
    [removeFeaturedImage] equal to 'true', the image route answers 404.
    Without either, the image route answers as before the update. *)
Theorem update_featured_image (db db' : gmap string Post) i now req u post pj :
  findById db i = Some post ->
  updatePost db i now req u = (Json 200 (BPost pj), db') ->
  (forall f, file req = Some f ->
     getImage db' i = (Send (mimetype f) (buffer f), db'))
  /\ (file req = None -> body_removeFeaturedImage (body req) = Some "true" ->
      getImage db' i = (Json 404 (BError "Image not found"), db'))
  /\ (file req = None -> body_removeFeaturedImage (body req) <> Some "true" ->
      (getImage db' i).1 = (getImage db i).1).
Proof.
  intros Hf Hu. destruct (updatePost_200 _ _ _ _ _ _ _ _ Hf Hu) as [_ ->].
  assert (Hpost : findById (findByIdAndUpdate db i (apply_update (body req) (file req) now)) i
                  = Some (apply_update (body req) (file req) now post))
    by (by rewrite findById_update, Hf).
  unfold getImage. rewrite Hpost, Hf. cbn [apply_update featuredImage].
  split; [|split].
  - by intros f ->.
  - intros Hfile Hrm. rewrite Hfile, Hrm. reflexivity.
  - intros -> Hne. destruct (body_removeFeaturedImage (body req)) as [s|]; [|by destruct (featuredImage post) as [[[]]|]].
    destruct (String.eqb_spec s "true") as [->|_]; [done|].
    by destruct (featuredImage post) as [[[]]|].
Qed.

(** X14.  A delete by the author or an administrator removes the post and
    nothing else: afterwards the image route, the delete route, the update
    route and the comment route answer 404 for its [_id], the detail route
    answers 404 for its [_id], and every other post is as it was. *)
Theorem delete_removes_the_post (db : gmap string Post) i u post :
  findById db i = Some post ->
  canMutate post u ->
  let db' := delete i db in
  deletePost db i u = (Json 200 (BMessage "Post deleted successfully"), db')
  /\ (forall j, j <> i -> db' !! j = db !! j)
  /\ getImage db' i = (Json 404 (BError "Image not found"), db')
  /\ (forall u', deletePost db' i u' = (not_found, db'))
  /\ (forall now req u', updatePost db' i now req u' = (not_found, db'))
  /\ (forall users now req u' text,
        body_content (body req) = Some text -> text <> "" ->
        addCommentRoute db' users i now req u' = (not_found, db'))
  /\ (forall now, ObjectId_isValid i = true -> getPost db' now i = (not_found, db')).
Proof.
  intros Hf Hcan db'. apply not_authorized_false in Hcan.
  assert (Hgone : findById db' i = None) by apply lookup_delete_eq.
  split; [unfold deletePost; by rewrite Hf, Hcan|].
  split; [intros j Hj; by apply lookup_delete_ne|].
  split; [unfold getImage; by rewrite Hgone|].
  split; [intros u'; unfold deletePost; by rewrite Hgone|].
  split; [intros now req u'; unfold updatePost; by rewrite Hgone|].
  split.
  - intros users now req u' text Ht Hne. unfold addCommentRoute. rewrite Ht, Hgone.
    by destruct text.
  - intros now Hv. unfold getPost, lookup_identifier. by rewrite Hv, Hgone.
Qed.

Lemma delete_insert_aux (db : gmap string Post) i p :
  db !! i = None -> <[i := p]> db !! i = Some p /\ delete i (<[i := p]> db) = db.
Proof.
  intros Hfresh. split; [apply lookup_insert_eq|].
  rewrite delete_insert_eq. by apply delete_id.
Qed.

(** X15.  Creating a post and deleting it again, as its author, gives back the
    collection as it was before. *)
Theorem create_then_delete (db db1 : gmap string Post) newId now req u r :
  createPost db newId now req u = Some (r, db1) ->
  status_of r = 201%nat ->
  deletePost db1 newId u = (Json 200 (BMessage "Post deleted successfully"), db).
Proof.
  intros Hc H201.
  destruct (createPost_created _ _ _ _ _ _ _ Hc H201) as (t & _ & Hfresh & _ & -> & _).
  set (post := created_post newId now (body req) (file req) u t).
  destruct (delete_insert_aux db newId post Hfresh) as [Hl Hd].
  unfold deletePost, findById. rewrite Hl.
  assert (Hauth : not_authorized post u = false).
  { apply not_authorized_false. by left. }
  rewrite Hauth. unfold findByIdAndDelete. by rewrite Hd.
Qed.

(** ** The detail route and drafts *)

Lemma to_json_isPublished p q : to_json p = to_json q -> isPublished p = isPublished q.
Proof.
  intros H. apply (f_equal (fun pj => isPublished (doc pj))) in H.
  unfold to_json, exclude_image_data in H. exact H.
Qed.

(** X16.  The detail route does not look at the publish flag.  A stored post
    is served under its [_id] and under its slug whether it is published or
    not; the answer shows the view count as it was before this read, while the
    stored count is one more afterwards and no other document changes.  A
    draft that the detail route serves is in no answer of the list route or of
    the search route. *)
Theorem detail_route_ignores_the_publish_flag (db : gmap string Post) now ident post :
  wf db -> slug_unique db -> db !! _id post = Some post -> resolves ident post ->
  (getPost db now ident).1 = Json 200 (BPost (to_json post))
  /\ viewCount (doc (to_json post)) = viewCount post
  /\ (exists q, (getPost db now ident).2 !! _id post = Some q
                /\ viewCount q = viewCount post + 1
                /\ isPublished q = isPublished post)
  /\ (forall k, k <> _id post -> (getPost db now ident).2 !! k = db !! k)
  /\ (isPublished post = false ->
      forall req, (to_json post ∉ jsons_of (listPosts db req).1)
                  /\ (to_json post ∉ jsons_of (searchPosts db req).1)).
Proof.
  intros Hwf U Hp Hres.
  assert (Hl : lookup_identifier db ident = Some post)
    by (by apply (resolves_lookup_identifier db ident post post)).
  unfold getPost. rewrite Hl. cbn [fst snd].
  split; [done|]. split; [done|]. split; [|split].
  - exists (inc_update now post). unfold findByIdAndUpdate.
    rewrite lookup_alter_eq, Hp. done.
  - intros k Hk. unfold findByIdAndUpdate. by rewrite lookup_alter_ne.
  - intros Hd req. split; intros Hin.
    + apply listPosts_items in Hin as [p [Heq [_ Hpub]]].
      apply to_json_isPublished in Heq. congruence.
    + apply searchPosts_items in Hin as [p [Heq [_ Hpub]]].
      apply to_json_isPublished in Heq. congruence.
Qed.

(** ** The model method [incrementViewCount] *)

Lemma incrementViewCount_writes (db : gmap string Post) d n :
  Js.truthy (slug d) = true ->
  incrementViewCount db d n
  = Some (set_updatedAt n (set_viewCount (viewCount d + 1) d),
          <[_id d := set_updatedAt n (set_viewCount (viewCount d + 1) d)]> db).
Proof.
  intros Ht. unfold incrementViewCount, save_document, validate_stored, pre_save, save.
  cbn [slug set_viewCount set_updatedAt]. rewrite Ht. cbn [negb orb].
  cbn [slug set_viewCount set_updatedAt]. rewrite String.eqb_refl. reflexivity.
Qed.

(** X17.  [incrementViewCount] saves the number that the document in memory
    has.  Called on a document that was just read it adds one view, and two
    calls that each read first add two.  Two documents that were both read
    before either was saved add one view only: the second save writes the
    same number again.  The atomic update of the detail route adds two in
    both cases. *)
Theorem incrementViewCount_on_stale_document (db : gmap string Post) post n1 n2 :
  db !! _id post = Some post -> slug post <> "" ->
  exists p1 db1,
    incrementViewCount db post n1 = Some (p1, db1)
    /\ db1 !! _id post = Some p1
    /\ viewCount p1 = viewCount post + 1
    /\ (forall k, k <> _id post -> db1 !! k = db !! k)
    /\ (exists p2 db2,
          incrementViewCount db1 p1 n2 = Some (p2, db2)
          /\ db2 !! _id post = Some p2
          /\ viewCount p2 = viewCount post + 2)
    /\ (exists p2 db2,
          incrementViewCount db1 post n2 = Some (p2, db2)
          /\ db2 !! _id post = Some p2
          /\ viewCount p2 = viewCount post + 1)
    /\ (exists q,
          findByIdAndUpdate (findByIdAndUpdate db (_id post) (inc_update n1))
            (_id post) (inc_update n2) !! _id post = Some q
          /\ viewCount q = viewCount post + 2).
Proof.
  intros Hp Hs.
  assert (Ht : Js.truthy (slug post) = true)
    by (destruct (slug post); [done|reflexivity]).
  rewrite (incrementViewCount_writes db post n1 Ht).
  eexists _, _. split; [reflexivity|].
  split; [by rewrite lookup_insert_eq|]. split; [done|]. split.
  { intros k Hk. by rewrite lookup_insert_ne. }
  split; [|split].
  - rewrite incrementViewCount_writes by exact Ht.
    eexists _, _. split; [reflexivity|]. cbn [_id set_updatedAt set_viewCount].
    split; [by rewrite lookup_insert_eq|]. cbn. lia.
  - rewrite (incrementViewCount_writes _ post n2 Ht).
    eexists _, _. split; [reflexivity|]. split; [by rewrite lookup_insert_eq|]. done.
  - unfold findByIdAndUpdate. rewrite !lookup_alter_eq, Hp. cbn.
    eexists. split; [reflexivity|]. cbn. lia.
Qed.

(** ** Search *)

(** X18.  The search handler, given a query that is a regular expression:
    it answers 200 with at most twenty posts, newest first, each of them a
    stored post that is published and whose title, content or one of whose
    tags passes the test; when at most twenty stored posts are such, all of
    them are in the answer.  An absent or empty query is answered 400 and an
    ill-formed expression 500. *)
Theorem searchPosts_results (db : gmap string Post) req :
  (forall q test, query_q (query req) = Some q -> q <> "" -> RegExp_i q = Some test ->
     exists posts,
       searchPosts db req = (Json 200 (BPosts (List.map to_json posts) None), db)
       /\ (length posts <= 20)%nat
       /\ StronglySorted newer_first posts
       /\ (forall p, p ∈ posts ->
             p ∈ documents db /\ isPublished p = true
             /\ (test (title p) = true \/ test (content p) = true
                 \/ exists t, t ∈ tags p /\ test t = true))
       /\ ((length (List.filter (search_match test) (documents db)) <= 20)%nat ->
           forall p, p ∈ documents db -> search_match test p = true -> p ∈ posts))
  /\ (query_q (query req) = None \/ query_q (query req) = Some "" ->
      status_of (searchPosts db req).1 = 400%nat)
  /\ (forall q, query_q (query req) = Some q -> q <> "" -> RegExp_i q = None ->
      status_of (searchPosts db req).1 = 500%nat).
Proof.
  split; [|split].
  - intros q test Hq Hne Hre. unfold searchPosts. rewrite Hq.
    assert (Ht : Js.truthy q = true) by (destruct q; [done|reflexivity]).
    rewrite Ht, Hre. cbn [negb].
    set (found := List.filter (search_match test) (documents db)).
    exists (limit 20 (sort_createdAt_desc found)).
    split; [done|]. split; [|split; [|split]].
    + unfold limit. cbn. rewrite length_take. lia.
    + eapply StronglySorted_sublist; [apply limit_sublist|apply sorted_desc_sorted].
    + intros p Hin. apply (sublist_subseteq _ _ (limit_sublist _ _)) in Hin.
      apply (proj1 (elem_of_sorted_desc _ _)) in Hin.
      apply (proj1 (list_elem_of_In _ _)) in Hin.
      apply filter_In in Hin as [Hin Hm].
      apply (proj2 (list_elem_of_In _ _)) in Hin.
      split; [done|]. unfold search_match in Hm.
      apply andb_true_iff in Hm as [Hpub Hm]. split; [done|].
      apply orb_true_iff in Hm as [Hm|Hm]; [apply orb_true_iff in Hm as [Hm|Hm]|].
      * by left.
      * right. by left.
      * right. right. apply existsb_exists in Hm as [t [Hin' Ht']].
        exists t. split; [by apply list_elem_of_In|done].
    + intros Hlen p Hin Hm.
      assert (Hall : limit 20 (sort_createdAt_desc found) = sort_createdAt_desc found).
      { unfold limit. cbn. apply take_ge. unfold sort_createdAt_desc.
        rewrite merge_sort_Permutation. done. }
      rewrite Hall. apply elem_of_sorted_desc. apply list_elem_of_In.
      apply filter_In. split; [by apply list_elem_of_In|done].
  - intros [H|H]; unfold searchPosts; rewrite H; reflexivity.
  - intros q Hq Hne Hre. unfold searchPosts. rewrite Hq.
    assert (Ht : Js.truthy q = true) by (destruct q; [done|reflexivity]).
    by rewrite Ht, Hre.
Qed.

(** ** Uploads *)

Lemma includes_app p a b : includes p (a +:+ p +:+ b) = true.
Proof.
  induction a as [|c a IH].
  - change ("" +:+ p +:+ b) with (p +:+ b).
    assert (H : starts_with p (p +:+ b) = true).
    { clear. induction p as [|c p IH]; [by destruct b|].
      change (String c p +:+ b) with (String c (p +:+ b)). cbn.
      rewrite Ascii.eqb_refl. exact IH. }
    destruct (p +:+ b) eqn:E; cbn; rewrite H; reflexivity.
  - change (String c a +:+ p +:+ b) with (String c (a +:+ p +:+ b)).
    cbn. rewrite IH. apply orb_true_r.
Qed.

(** X19.  What becomes of a request that brings a file.  A file that passes
    the upload middleware is handed on unchanged, was not found too large for
    the limit of 5242880 bytes, and has both a MIME type and a lower-cased
    extension that contain one of the five names.  A file that does not pass
    is answered 400 by the error handler, with the message of the filter or
    with the message about the size, and never 500.  The filter does not
    compare the extension with the MIME type: the name of one accepted file
    with the type of another is accepted, and so is any MIME type that merely
    contains one of the names. *)
Theorem upload_outcomes (f : File) :
  (forall f', upload_single f = inl f' ->
     f' = f
     /\ exceeds_fileSize 5242880 (buffer f) = false
     /\ allowedTypes_test (mimetype f) = true
     /\ allowedTypes_test (Js.toLowerCase (path_extname (originalname f))) = true)
  /\ (forall e, upload_single f = inr e ->
        (fileFilter (originalname f) (mimetype f) = false
         /\ errorHandler e = Json 400 (BError fileFilter_message))
        \/ (fileFilter (originalname f) (mimetype f) = true
            /\ exceeds_fileSize 5242880 (buffer f) = true
            /\ errorHandler e = Json 400 (BError "File too large. Maximum size is 5MB.")))
  /\ (forall g, fileFilter (originalname f) (mimetype f) = true ->
        fileFilter (originalname g) (mimetype g) = true ->
        fileFilter (originalname f) (mimetype g) = true)
  /\ (forall a b, fileFilter (originalname f) (mimetype f) = true ->
        fileFilter (originalname f) (a +:+ "png" +:+ b) = true).
Proof.
  unfold upload_single, fileSize_limit.
  change (5 * 1024 * 1024) with 5242880.
  split; [|split; [|split]].
  - intros f'. destruct (fileFilter _ _) eqn:Hf; cbn [negb]; [|discriminate].
    destruct (exceeds_fileSize _ _) eqn:Hsz; [discriminate|]. intros [= <-].
    unfold fileFilter in Hf.
    apply andb_true_iff in Hf as [Hm He]. done.
  - intros e. destruct (fileFilter _ _) eqn:Hf; cbn [negb].
    + destruct (exceeds_fileSize _ _) eqn:Hsz; [|discriminate]. intros [= <-].
      right. done.
    + intros [= <-]. left. split; [done|]. vm_compute. reflexivity.
  - intros g. unfold fileFilter. rewrite !andb_true_iff. tauto.
  - intros a b. unfold fileFilter. rewrite !andb_true_iff. intros [_ He].
    split; [|done]. unfold allowedTypes_test. cbn [existsb].
    rewrite (includes_app "png" a b). by rewrite !orb_true_r.
Qed.

End Routes.

(** * The properties at sample inputs *)

Lemma update_delete_authorization_witness :
  updatePost is_hex24 lower_hex db_hello post_id_1 2000 (retitle bob) bob
    = (Json 403 (BError "Not authorized to update this post"), db_hello)
  /\ deletePost db_hello post_id_1 bob
    = (Json 403 (BError "Not authorized to delete this post"), db_hello).
Proof.
  apply (update_delete_authorization is_hex24 lower_hex db_hello post_id_1 hello_post 2000 (retitle bob) bob).
  - reflexivity.
  - unfold canMutate. vm_compute. intros [H|H]; discriminate H.
Defined.

Lemma listPosts_published_window_witness :
  exists pg,
    listPosts is_hex24 lower_hex db_two (list_request (Some "0") None)
    = (Json 200 (BPosts [to_json hello_published] (Some pg)), db_two)
    /\ pg_page pg = 1 /\ pg_limit pg = 10.
Proof.
  destruct (listPosts_published_window is_hex24 lower_hex db_two (list_request (Some "0") None))
    as (_ & _ & _ & _ & _ & _ & _ & _ & H & _).
  destruct H as (all & pg & Hperm & _ & H & Hp & Hl & _).
  - vm_compute. discriminate.
  - exact I.
  - reflexivity.
  - assert (E : all = [hello_published]).
    { apply Permutation_singleton_r. etrans; [exact Hperm|]. vm_compute. reflexivity. }
    subst all. exists pg. split; [|split; [exact Hp|exact Hl]].
    rewrite H. reflexivity.
Defined.

(** C4, as the specification words it, fails: a parameter that reads as a
    negative number is kept.  With [page=-3] the route computes page [-3] and
    skip [-40], and the storage layer refuses the query. *)
Lemma negative_page_is_not_defaulted :
  let q := mkQuery (Some "-3") None None None in
  parseInt (query_page q) = Some (-3)
  /\ list_params q = (-3, 10, -40)
  /\ ~ (forall q' n, parseInt (query_page q') = Some n -> n <= 0 ->
                     (list_params q').1.1 = 1)
  /\ status_of (listPosts is_hex24 lower_hex db_two (list_request (Some "-3") None)).1 = 500%nat.
Proof.
  split; [reflexivity|]. split; [reflexivity|]. split; [|reflexivity].
  intros H. specialize (H (mkQuery (Some "-3") None None None) (-3) eq_refl).
  vm_compute in H. specialize (H ltac:(discriminate)). discriminate H.
Qed.

Lemma second_create_with_same_slug_is_refused_witness :
  createPost is_hex24 lower_hex ∅ post_id_1 1000 (create_hello (Some png)) alice
    = Some (Json 201 (BPost (created_json hello_post)), db_hello)
  /\ generateUniqueSlug db_hello "Hello World!!" = Some "hello-world-1"
  /\ createPost is_hex24 lower_hex db_hello post_id_2 2000 (create_hello None) alice
    = Some (Json 400 (BError "Post with this title already exists"), db_hello).
Proof.
  assert (H1 : createPost is_hex24 lower_hex ∅ post_id_1 1000 (create_hello (Some png)) alice
               = Some (Json 201 (BPost (created_json hello_post)), db_hello))
    by (vm_compute; reflexivity).
  split; [exact H1|]. split; [vm_compute; reflexivity|].
  apply (second_create_with_same_slug_is_refused is_hex24 lower_hex ∅ db_hello post_id_1 post_id_2 1000 2000
           (create_hello (Some png)) (create_hello None) alice alice
           "Hello World!!" "Hello World!!" _ eq_refl eq_refl eq_refl H1 eq_refl).
  - vm_compute. discriminate.
  - vm_compute. reflexivity.
Defined.

Lemma image_round_trip_witness :
  getImage db_hello post_id_1 = (Send "image/png" (buffer png), db_hello).
Proof.
  apply (image_round_trip is_hex24 lower_hex ∅ db_hello post_id_1 1000
           (create_hello (Some png)) alice png
           (Json 201 (BPost (created_json hello_post)))).
  - intros k p Hk. rewrite lookup_empty in Hk. discriminate Hk.
  - reflexivity.
  - vm_compute. reflexivity.
  - reflexivity.
Defined.

Lemma create_without_publish_flag_is_draft_witness :
  exists post, db_hello !! post_id_1 = Some post /\ isPublished post = false.
Proof.
  destruct (create_without_publish_flag_is_draft is_hex24 lower_hex literal_i ∅ db_hello post_id_1 1000
              (create_hello (Some png)) alice
              (Json 201 (BPost (created_json hello_post))))
    as (post & Hpost & Hdraft & _).
  - discriminate.
  - discriminate.
  - vm_compute. reflexivity.
  - reflexivity.
  - exists post. split; [exact Hpost|exact Hdraft].
Defined.

Lemma update_frame_witness :
  exists post',
    (updatePost is_hex24 lower_hex db_hello post_id_1 2000 (retitle alice) alice).2 !! post_id_1 = Some post'
    /\ title post' = "Hello again" /\ isPublished post' = true
    /\ slug post' = "hello-world" /\ author post' = user_id alice
    /\ updatedAt post' = 2000.
Proof.
  destruct (update_frame is_hex24 lower_hex db_hello
              (updatePost is_hex24 lower_hex db_hello post_id_1 2000 (retitle alice) alice).2
              post_id_1 2000 (retitle alice) alice hello_post
              (to_json (apply_update lower_hex retitle_body None 2000 hello_post)))
    as (post' & Hl & _ & _ & Hs & Ha & _ & _ & _ & Hu & Hj).
  - reflexivity.
  - vm_compute. reflexivity.
  - exists post'. split; [exact Hl|].
    assert (E : post' = apply_update lower_hex retitle_body None 2000 hello_post).
    { vm_compute in Hl. injection Hl as <-. vm_compute. reflexivity. }
    rewrite E. vm_compute. repeat split.
Defined.

(** C7, as the specification words it, fails: an update that sends the post
    its own values changes the post all the same, in [updatedAt]. *)
Lemma update_stamps_updatedAt :
  let r := updatePost is_hex24 lower_hex db_hello post_id_1 2000 (resend alice) alice in
  status_of r.1 = 200%nat
  /\ exists post',
      r.2 !! post_id_1 = Some post'
      /\ title post' = title hello_post
      /\ content post' = content hello_post
      /\ excerpt post' = excerpt hello_post
      /\ category post' = category hello_post
      /\ tags post' = tags hello_post
      /\ isPublished post' = isPublished hello_post
      /\ featuredImage post' = featuredImage hello_post
      /\ updatedAt hello_post = 1000
      /\ updatedAt post' = 2000
      /\ post' <> hello_post.
Proof.
  split; [reflexivity|].
  exists (apply_update lower_hex hello_body None 2000 hello_post).
  split; [vm_compute; reflexivity|].
  repeat (split; [reflexivity|]). intros E. discriminate E.
Qed.

Lemma addComment_appends_witness :
  (exists post',
     comments post' = [mkComment (user_id bob) "Nice" 3000]
     /\ commentRoute is_hex24 lower_hex db_hello sample_users post_id_1 3000
          (comment_request (Some "Nice")) bob
        = (Json 201 (BComments [mkCommentJson (Some (user_id bob, "bob")) "Nice" 3000]),
           <[post_id_1 := post']> db_hello))
  /\ commentRoute is_hex24 lower_hex db_hello sample_users post_id_1 3000
       (comment_request (Some "")) bob
     = (Json 400 (BErrors ["Comment content is required"]), db_hello)
  /\ commentRoute is_hex24 lower_hex db_hello sample_users post_id_2 3000
       (comment_request (Some "Nice")) bob
     = (not_found, db_hello).
Proof.
  assert (Hwf : wf db_hello).
  { intros k p Hk. unfold db_hello in Hk. apply lookup_singleton_Some in Hk as [<- <-].
    reflexivity. }
  split; [|split].
  - destruct (addComment_appends is_hex24 lower_hex db_hello sample_users post_id_1 3000
                (comment_request (Some "Nice")) bob Hwf) as (_ & _ & _ & _ & H).
    destruct (H "Nice" post_id_1 hello_post eq_refl ltac:(discriminate) eq_refl eq_refl
                ltac:(discriminate))
      as (post' & _ & Hc & E).
    exists post'. split; [exact Hc|]. rewrite E. reflexivity.
  - destruct (addComment_appends is_hex24 lower_hex db_hello sample_users post_id_1 3000
                (comment_request (Some "")) bob Hwf) as (H & _).
    apply H. right. reflexivity.
  - destruct (addComment_appends is_hex24 lower_hex db_hello sample_users post_id_2 3000
                (comment_request (Some "Nice")) bob Hwf) as (_ & _ & H & _).
    apply (H "Nice" post_id_2); [reflexivity|discriminate|reflexivity|reflexivity].
Defined.

(** C8, as the specification words it, fails in two places.  A parameter that
    is not an ObjectId names no post, and the route answers 500, not 404.  And
    a post can be stored with an empty slug: the create route accepts the
    title " ?!", because the slug "-" that it proposes passes validation, and
    the pre-save hook then stores the slug of the trimmed title, which is
    empty; a comment on that post fails validation when the post is saved, so
    the route answers 500 and appends nothing. *)
Lemma comment_is_answered_500 :
  db_hello !! "abc" = None
  /\ status_of (commentRoute is_hex24 lower_hex db_hello sample_users "abc" 3000
                  (comment_request (Some "Nice")) bob).1 = 500%nat
  /\ createPost is_hex24 lower_hex ∅ post_id_1 1000 create_punctuation alice
     = Some (Json 201 (BPost (created_json punctuation_post)), db_punctuation)
  /\ db_punctuation !! post_id_1 = Some punctuation_post
  /\ slug punctuation_post = ""
  /\ status_of (commentRoute is_hex24 lower_hex db_punctuation sample_users post_id_1 3000
                  (comment_request (Some "Nice")) bob).1 = 500%nat
  /\ (commentRoute is_hex24 lower_hex db_punctuation sample_users post_id_1 3000
        (comment_request (Some "Nice")) bob).2 = db_punctuation.
Proof.
  split; [reflexivity|]. split; [reflexivity|].
  split; [vm_compute; reflexivity|]. split; [reflexivity|]. split; [reflexivity|].
  split; [reflexivity|]. vm_compute. reflexivity.
Qed.

Lemma search_request_is_served_by_detail_route_witness :
  dispatch is_hex24 lower_hex literal_i (after_last_dot "") longer_than db_two sample_env (search_request (Some "hello"))
    = Some (not_found, db_two)
  /\ dispatch is_hex24 lower_hex literal_i (after_last_dot "") longer_than db_two sample_env (search_request None)
    = Some (not_found, db_two)
  /\ searchPosts literal_i db_two (search_request (Some "hello"))
    = (Json 200 (BPosts [to_json hello_published] None), db_two).
Proof.
  split; [|split].
  - apply (search_request_is_served_by_detail_route is_hex24 lower_hex literal_i
             (after_last_dot "") longer_than db_two sample_env
             (search_request (Some "hello")) eq_refl eq_refl); vm_compute; reflexivity.
  - apply (search_request_is_served_by_detail_route is_hex24 lower_hex literal_i
             (after_last_dot "") longer_than db_two sample_env
             (search_request None) eq_refl eq_refl); vm_compute; reflexivity.
  - vm_compute. reflexivity.
Defined.

Lemma db_hello_invariants : wf db_hello /\ slug_unique db_hello.
Proof.
  apply (createPost_keeps_invariants is_hex24 lower_hex ∅ db_hello post_id_1 1000
           (create_hello (Some png)) alice (Json 201 (BPost (created_json hello_post)))).
  - apply wf_empty.
  - apply slug_unique_empty.
  - vm_compute. reflexivity.
Qed.

Lemma concurrent_detail_reads_count_every_view_witness :
  exists post',
    (run_schedule (detail_step is_hex24) alternating
       (db_hello, [Reading "hello-world"; Reading post_id_1])).1 !! post_id_1 = Some post'
    /\ viewCount post' = 2.
Proof.
  apply (concurrent_detail_reads_count_every_view is_hex24 db_hello
           (run_schedule (detail_step is_hex24) alternating
              (db_hello, [Reading "hello-world"; Reading post_id_1])).1
           ["hello-world"; post_id_1] hello_post alternating
           (run_schedule (detail_step is_hex24) alternating
              (db_hello, [Reading "hello-world"; Reading post_id_1])).2).
  - apply db_hello_invariants.
  - apply db_hello_invariants.
  - reflexivity.
  - repeat constructor.
  - destruct (run_schedule _ _ _). reflexivity.
  - vm_compute. repeat constructor.
Defined.

(** The same two reads with the model method [incrementViewCount], which
    writes back the count it read plus one: one of the two views is lost. *)
Lemma read_modify_write_loses_a_view :
  viewCount <$>
    (run_schedule (detail_step_rmw is_hex24) alternating
       (db_hello, [Reading "hello-world"; Reading post_id_1])).1 !! post_id_1
  = Some 1.
Proof. vm_compute. reflexivity. Qed.

(** * The further properties at sample inputs *)

Lemma edit_form_keeps_tags_witness :
  form_tags (edit_form hello_post) = "intro, news"
  /\ form_tag_list (edit_form hello_post) = ["intro"; "news"]
  /\ parse_tags (body_tags (formData (edit_form hello_post))) = ["intro"; "news"].
Proof.
  split; [reflexivity|].
  destruct (edit_form_keeps_tags hello_post) as (H1 & H2 & _).
  - repeat constructor.
  - split; [exact H1|exact H2].
Defined.

Lemma db_two_wf : wf db_two.
Proof.
  intros k p Hk. unfold db_two in Hk.
  apply lookup_insert_Some in Hk as [[<- <-]|[_ Hk]]; [reflexivity|].
  apply lookup_singleton_Some in Hk as [<- <-]. reflexivity.
Qed.

Lemma db_two_distinct_createdAt : distinct_createdAt db_two.
Proof.
  intros k1 k2 p1 p2 H1 H2. unfold db_two in H1, H2.
  apply lookup_insert_Some in H1 as [[<- <-]|[_ H1]];
    [|apply lookup_singleton_Some in H1 as [<- <-]];
    (apply lookup_insert_Some in H2 as [[<- <-]|[_ H2]];
     [|apply lookup_singleton_Some in H2 as [<- <-]]);
    (reflexivity || (intros E; discriminate E)).
Qed.

Lemma getAllPosts_query_is_read_back_witness :
  list_params (getAllPosts_query 3 5 (Some tech)) = (3, 5, 10)
  /\ list_params (getAllPosts_query 0 0 None) = (1, 10, 0).
Proof.
  split.
  - destruct (getAllPosts_query_is_read_back 3 5 (Some tech)) as (_ & _ & H).
    + reflexivity.
    + exact H.
  - destruct (getAllPosts_query_is_read_back 0 0 None) as (_ & _ & H).
    + exact I.
    + exact H.
Defined.

Lemma list_pages_partition_witness :
  jsons_of (listPosts is_hex24 lower_hex db_two
              (getAllPosts_request 1 1 (Some tech) None)).1
  = [to_json hello_published]
  /\ jsons_of (listPosts is_hex24 lower_hex db_two
                 (getAllPosts_request 2 1 (Some tech) None)).1
     = [].
Proof.
  pose proof (list_pages_partition is_hex24 lower_hex db_two 1 (Some tech) None
                ltac:(lia) eq_refl eq_refl db_two_wf db_two_distinct_createdAt) as H.
  cbv zeta in H. destruct H as (_ & H & _). split.
  - destruct (H 1 ltac:(lia)) as (H1 & _). rewrite H1. vm_compute. reflexivity.
  - destruct (H 2 ltac:(lia)) as (_ & _ & H2). apply H2. vm_compute. discriminate.
Defined.

Lemma reachable_invariants_witness : wf db_hello /\ slug_unique db_hello.
Proof.
  apply (reachable_invariants is_hex24 lower_hex literal_i db_hello).
  apply (reachable_served is_hex24 lower_hex literal_i ∅
           (Json 201 (BPost (created_json hello_post))) db_hello).
  - apply reachable_empty.
  - apply (served_create is_hex24 lower_hex literal_i ∅ post_id_1 1000 (create_hello (Some png)) alice).
    vm_compute. reflexivity.
Defined.

Lemma served_posts_evolve_witness :
  evolves hello_post (inc_update 4000 hello_post).
Proof.
  apply (served_posts_evolve is_hex24 lower_hex literal_i db_hello
           (getPost is_hex24 db_hello 4000 "hello-world").2
           (getPost is_hex24 db_hello 4000 "hello-world").1 post_id_1).
  - apply served_detail.
  - apply db_hello_invariants.
  - reflexivity.
  - vm_compute. reflexivity.
Defined.

Lemma errors_change_nothing_witness :
  (updatePost is_hex24 lower_hex db_hello post_id_1 2000 (retitle bob) bob).2 = db_hello.
Proof.
  apply (errors_change_nothing is_hex24 lower_hex literal_i db_hello _
           (updatePost is_hex24 lower_hex db_hello post_id_1 2000 (retitle bob) bob).1).
  - apply served_update.
  - vm_compute. lia.
Defined.

Lemma createPost_outcomes_witness :
  createRoute is_hex24 lower_hex (after_last_dot "") longer_than
    ∅ post_id_1 1000 (create_hello (Some png)) alice
  = Some (Json 201 (BPost (created_json hello_post)), db_hello)
  /\ exists r,
      createRoute is_hex24 lower_hex (after_last_dot "") longer_than
        ∅ post_id_1 1000 (create_hello (Some page_html)) alice
      = Some (r, ∅)
      /\ status_of r = 400%nat.
Proof.
  split.
  - destruct (createPost_outcomes is_hex24 lower_hex (after_last_dot "") longer_than
                ∅ post_id_1 1000 (create_hello (Some png)) alice)
      as (_ & Hpass & _ & H & _).
    rewrite (Hpass eq_refl).
    specialize (H "Hello World!!" eq_refl ltac:(vm_compute; discriminate)).
    cbv zeta in H. destruct H as (_ & _ & H).
    destruct (H eq_refl eq_refl eq_refl) as (E & _).
    rewrite E. vm_compute. reflexivity.
  - destruct (createPost_outcomes is_hex24 lower_hex (after_last_dot "") longer_than
                ∅ post_id_1 1000 (create_hello (Some page_html)) alice)
      as (H & _).
    apply H. reflexivity.
Defined.

Lemma update_resets_omitted_fields_witness :
  tags hello_post = ["intro"; "news"]
  /\ exists post',
      (updatePost is_hex24 lower_hex db_hello post_id_1 2000 (bare_update None) alice).2 !! post_id_1
      = Some post'
      /\ tags post' = [] /\ isPublished post' = false /\ slug post' = "hello-world".
Proof.
  split; [reflexivity|].
  destruct (update_resets_omitted_fields is_hex24 lower_hex db_hello
              (updatePost is_hex24 lower_hex db_hello post_id_1 2000 (bare_update None) alice).2
              post_id_1 2000 (bare_update None) alice hello_post
              (to_json (apply_update lower_hex bare_body None 2000 hello_post)))
    as (post' & E & _ & _ & _ & Hp & Ht & _ & Hs).
  - reflexivity.
  - vm_compute. reflexivity.
  - exists post'. rewrite E. rewrite lookup_insert_eq.
    split; [reflexivity|]. split; [exact (Ht eq_refl)|].
    split; [exact (Hp eq_refl)|exact Hs].
Defined.

Lemma update_featured_image_witness :
  getImage (updatePost is_hex24 lower_hex db_hello post_id_1 2000 (bare_update (Some gif)) alice).2 post_id_1
  = (Send "image/gif" (buffer gif),
     (updatePost is_hex24 lower_hex db_hello post_id_1 2000 (bare_update (Some gif)) alice).2).
Proof.
  destruct (update_featured_image is_hex24 lower_hex db_hello
              (updatePost is_hex24 lower_hex db_hello post_id_1 2000
                 (bare_update (Some gif)) alice).2
              post_id_1 2000 (bare_update (Some gif)) alice hello_post
              (to_json (apply_update lower_hex bare_body (Some gif) 2000 hello_post)))
    as (H & _).
  - reflexivity.
  - vm_compute. reflexivity.
  - exact (H gif eq_refl).
Defined.

Lemma delete_removes_the_post_witness :
  deletePost db_hello post_id_1 alice
  = (Json 200 (BMessage "Post deleted successfully"), delete post_id_1 db_hello)
  /\ getPost is_hex24 (delete post_id_1 db_hello) 4000 post_id_1
     = (not_found, delete post_id_1 db_hello).
Proof.
  pose proof (delete_removes_the_post is_hex24 lower_hex db_hello post_id_1 alice hello_post
                eq_refl (or_introl eq_refl)) as H.
  cbv zeta in H. destruct H as (H1 & _ & _ & _ & _ & _ & H2).
  split; [exact H1|]. apply H2. vm_compute. reflexivity.
Defined.

Lemma create_then_delete_witness :
  deletePost db_hello post_id_1 alice
  = (Json 200 (BMessage "Post deleted successfully"), ∅).
Proof.
  apply (create_then_delete is_hex24 lower_hex ∅ db_hello post_id_1 1000 (create_hello (Some png)) alice
           (Json 201 (BPost (created_json hello_post)))).
  - vm_compute. reflexivity.
  - reflexivity.
Defined.

Lemma detail_route_ignores_the_publish_flag_witness :
  isPublished hello_post = false
  /\ (getPost is_hex24 db_hello 4000 "hello-world").1 = Json 200 (BPost (to_json hello_post))
  /\ (getPost is_hex24 db_hello 4000 post_id_1).1 = Json 200 (BPost (to_json hello_post))
  /\ (to_json hello_post ∉ jsons_of (listPosts is_hex24 lower_hex db_hello (list_request None None)).1).
Proof.
  split; [reflexivity|].
  destruct (detail_route_ignores_the_publish_flag is_hex24 lower_hex literal_i db_hello 4000
              "hello-world" hello_post) as (H1 & _ & _ & _ & H2).
  - apply db_hello_invariants.
  - apply db_hello_invariants.
  - reflexivity.
  - vm_compute. reflexivity.
  - split; [exact H1|]. split.
    + destruct (detail_route_ignores_the_publish_flag is_hex24 lower_hex literal_i db_hello 4000
                  post_id_1 hello_post) as (H3 & _).
      * apply db_hello_invariants.
      * apply db_hello_invariants.
      * reflexivity.
      * vm_compute. reflexivity.
      * exact H3.
    + apply (H2 eq_refl (list_request None None)).
Defined.

Lemma incrementViewCount_on_stale_document_witness :
  exists p1 db1,
    incrementViewCount db_hello hello_post 4000 = Some (p1, db1)
    /\ exists p2 db2,
         incrementViewCount db1 hello_post 4001 = Some (p2, db2)
         /\ db2 !! post_id_1 = Some p2
         /\ viewCount p2 = 1.
Proof.
  destruct (incrementViewCount_on_stale_document db_hello hello_post 4000 4001)
    as (p1 & db1 & E1 & _ & _ & _ & _ & (p2 & db2 & E2 & Hl & Hv) & _).
  - reflexivity.
  - discriminate.
  - exists p1, db1. split; [exact E1|]. exists p2, db2.
    split; [exact E2|]. split; [exact Hl|exact Hv].
Defined.

Lemma searchPosts_results_witness :
  exists posts,
    searchPosts literal_i db_two (search_request (Some "hello"))
    = (Json 200 (BPosts (List.map to_json posts) None), db_two)
    /\ (length posts <= 20)%nat.
Proof.
  destruct (searchPosts_results literal_i db_two (search_request (Some "hello")))
    as (H & _).
  destruct (H "hello" (fun subject => includes "hello" (Js.toLowerCase subject))
              eq_refl ltac:(discriminate) eq_refl)
    as (posts & E & Hlen & _).
  exists posts. split; [exact E|exact Hlen].
Defined.

Lemma upload_outcomes_witness :
  upload_single (after_last_dot "") longer_than gif = inl gif
  /\ allowedTypes_test (Js.toLowerCase (after_last_dot "" (originalname gif))) = true
  /\ exists e, upload_single (after_last_dot "") longer_than page_html = inr e
               /\ errorHandler e = Json 400 (BError fileFilter_message).
Proof.
  assert (E : upload_single (after_last_dot "") longer_than gif = inl gif)
    by (vm_compute; reflexivity).
  split; [exact E|]. split.
  - destruct (upload_outcomes (after_last_dot "") longer_than gif) as (H & _).
    destruct (H gif E) as (_ & _ & _ & Hx). exact Hx.
  - destruct (upload_outcomes (after_last_dot "") longer_than page_html) as (_ & H & _).
    exists (mkJsError None fileFilter_message None). split; [vm_compute; reflexivity|].
    destruct (H (mkJsError None fileFilter_message None) ltac:(vm_compute; reflexivity))
      as [[_ He]|[Hf _]].
    + exact He.
    + vm_compute in Hf. discriminate Hf.
Defined.
